(** * The JSON-RPC engine of moontest ([src/js/json-rpc.js])

    A shallow embedding of the class [JsonRPC] and of the part of the
    JavaScript platform it touches (values, property access, loose
    equality, promises, the console and the transport), followed by the
    properties of the engine that the specification states.

    Conventions of the embedding:
    - JavaScript numbers are the integers [Z]. Arithmetic on them is exact
      in the range the engine can reach (the identifier counter only counts
      calls, far below 2^53), and [ToString] prints them in decimal, as
      JavaScript does below 10^21.
    - [this.methods] and [this.pending_callbacks] are finite maps of their
      own properties, keyed by the property key a value is coerced to;
      property names inherited from [Object.prototype] are not modelled.
    - A wire text is represented by the value it encodes: [JSON_stringify]
      yields the encoding of the JSON form of a value, [JSON_parse] gives
      the value back or throws a [SyntaxError].
    - Registered callables are functions from their argument list to a
      completion (a returned or a thrown value); they do not reach into
      the engine. The closures the engine stores in [pending_callbacks]
      are represented by what they capture.
    - The reactions of promises run when a promise settles, in the order
      of settlement; the delay of the microtask queue is not modelled. *)

From Stdlib Require Import ZArith NArith String Ascii List Sorted DecimalString DecimalPos DecimalZ.
From stdpp Require Import gmap strings list fin_maps.

Open Scope string_scope.
Set Warnings "-register-all".

(** ** JavaScript values *)

Inductive value : Type :=
| VUndef
| VNull
| VBool (b : bool)
| VNum (z : Z)
| VStr (s : string)
| VArr (items : list value)
| VObj (fields : list (string * value))
| VError (name message : string).

(** An abrupt completion carries the thrown value. *)
Inductive completion (A : Type) : Type :=
| Normal (a : A)
| Abrupt (thrown : value).
Arguments Normal {A} a.
Arguments Abrupt {A} thrown.

Definition Error (message : string) : value := VError "Error" message.
Definition TypeError : value := VError "TypeError" "".
Definition SyntaxError : value := VError "SyntaxError" "".

(** [v.toString()] / string coercion. *)
Fixpoint ToString (v : value) : string :=
  match v with
  | VUndef => "undefined"
  | VNull => "null"
  | VBool b => if b then "true" else "false"
  | VNum z => NilZero.string_of_int (Z.to_int z)
  | VStr s => s
  | VArr items =>
      (fix join (l : list value) : string :=
         match l with
         | [] => ""
         | x :: rest =>
             let sx := match x with
                       | VUndef | VNull => ""
                       | _ => ToString x
                       end in
             match rest with
             | [] => sx
             | _ :: _ => sx ++ "," ++ join rest
             end
         end) items
  | VObj _ => "[object Object]"
  | VError name message =>
      if String.eqb message "" then name
      else if String.eqb name "" then message
      else name ++ ": " ++ message
  end.

(** [obj[key]] coerces [key] to a property key. *)
Definition ToPropertyKey (key : value) : string := ToString key.

(** [v == null], true of [null] and [undefined] only. *)
Definition is_nullish (v : value) : bool :=
  match v with
  | VUndef | VNull => true
  | _ => false
  end.

(** The string literals the engine compares with [==] and [!=], with the
    number each one converts to ([None] for NaN). *)
Inductive literal : Type := Lit_2_0 | Lit_empty | Lit_request.

Definition literal_string (l : literal) : string :=
  match l with
  | Lit_2_0 => "2.0"
  | Lit_empty => ""
  | Lit_request => "request"
  end.

Definition literal_number (l : literal) : option Z :=
  match l with
  | Lit_2_0 => Some 2%Z
  | Lit_empty => Some 0%Z
  | Lit_request => None
  end.

(** [v == "literal"]: strings compare as strings, numbers and booleans as
    numbers, objects through their string form. *)
Definition loose_eq (v : value) (l : literal) : bool :=
  match v with
  | VUndef | VNull => false
  | VStr s => String.eqb s (literal_string l)
  | VNum z =>
      match literal_number l with
      | Some n => Z.eqb z n
      | None => false
      end
  | VBool b =>
      match literal_number l with
      | Some n => Z.eqb (if b then 1 else 0) n
      | None => false
      end
  | VArr _ | VObj _ | VError _ _ => String.eqb (ToString v) (literal_string l)
  end.

Definition instanceof_Array (v : value) : bool :=
  match v with
  | VArr _ => true
  | _ => false
  end.

Definition instanceof_Object (v : value) : bool :=
  match v with
  | VArr _ | VObj _ | VError _ _ => true
  | _ => false
  end.

(** Own properties of an object, in insertion order; the first binding of
    a key is the property. *)
Fixpoint assoc (k : string) (fields : list (string * value)) : option value :=
  match fields with
  | [] => None
  | (k', v) :: rest => if String.eqb k k' then Some v else assoc k rest
  end.

(** [obj.k = v]: overwrite in place, or add at the end. *)
Fixpoint set_field (k : string) (v : value) (fields : list (string * value))
  : list (string * value) :=
  match fields with
  | [] => [(k, v)]
  | (k', v') :: rest =>
      if String.eqb k k' then (k, v) :: rest else (k', v') :: set_field k v rest
  end.

(** The value of an own property, [undefined] when there is none, and
    whether there is one. *)
Definition field (k : string) (fields : list (string * value)) : value :=
  match assoc k fields with
  | Some x => x
  | None => VUndef
  end.

Definition present (k : string) (fields : list (string * value)) : bool :=
  match assoc k fields with
  | Some _ => true
  | None => false
  end.

(** [v.k] for the property names the engine reads (none of them is
    inherited from a built-in prototype, except [message] of errors). *)
Definition get (v : value) (k : string) : completion value :=
  match v with
  | VUndef | VNull => Abrupt TypeError
  | VObj fields => Normal (field k fields)
  | VError _ message => Normal (if String.eqb k "message" then VStr message else VUndef)
  | _ => Normal VUndef
  end.

(** ["k" in v] for the same property names; the operator throws on
    anything that is not an object. *)
Definition has (k : string) (v : value) : completion bool :=
  match v with
  | VObj fields => Normal (present k fields)
  | VArr _ => Normal false
  | VError _ _ => Normal (String.eqb k "message")
  | _ => Abrupt TypeError
  end.

(** Spread [...v] in an argument list: arrays give their elements,
    strings their characters (one per byte of the model's strings), other
    values are not iterable. *)
Fixpoint characters (s : string) : list value :=
  match s with
  | EmptyString => []
  | String c rest => VStr (String c EmptyString) :: characters rest
  end.

Definition spread (v : value) : completion (list value) :=
  match v with
  | VArr items => Normal items
  | VStr s => Normal (characters s)
  | _ => Abrupt TypeError
  end.

(** ** Wire texts *)

(** The JSON form of a value: what [JSON.parse(JSON.stringify(v))] yields.
    Properties holding [undefined] are dropped, [undefined] array items
    become [null], errors have no enumerable property. *)
Fixpoint to_JSON (v : value) : value :=
  match v with
  | VArr items =>
      VArr (map (fun x => match x with
                          | VUndef => VNull
                          | _ => to_JSON x
                          end) items)
  | VObj fields =>
      VObj ((fix props (l : list (string * value)) : list (string * value) :=
               match l with
               | [] => []
               | (k, x) :: rest =>
                   match x with
                   | VUndef => props rest
                   | _ => (k, to_JSON x) :: props rest
                   end
               end) fields)
  | VError _ _ => VObj []
  | _ => v
  end.

Inductive text : Type :=
| Malformed
| Encoding (v : value).

Definition JSON_stringify (v : value) : text := Encoding (to_JSON v).

Definition JSON_parse (t : text) : completion value :=
  match t with
  | Malformed => Abrupt SyntaxError
  | Encoding v => Normal v
  end.

(** ** Promises, transports and the console *)

Inductive promise_state : Type :=
| Pending
| Fulfilled (v : value)
| Rejected (reason : value).

(** [Promise.all(inputs)]: the promise it returned and those it waits on. *)
Record all_record : Type := mk_all { all_result : nat; all_inputs : list nat }.

(** A registered method: from the argument list to what the call
    completes with. *)
Definition callable : Type := list value -> completion value.

(** The closures stored in [pending_callbacks], by what they capture: the
    resolve/reject pair of a promise and, for a batch item, the method
    name and the index of the item. *)
Inductive callback : Type :=
| call_finalize (promise : nat)
| batch_finalize (promise : nat) (name : value) (idx : nat).

(** The fields set by the constructor. *)
Record JsonRPC : Type := mk_JsonRPC {
  id_counter : N;
  methods : gmap string callable;
  pending_callbacks : gmap string callback;
  transport : option nat
}.

(** The engine together with the platform objects it acts on. Promises are
    named by their position in [heap], transports by a number; [sent] and
    [console] list the calls of [transport.send] and [console.log], oldest
    first; [onmessage] lists the transports whose [onmessage] is the
    engine's [process_received]. *)
Record world : Type := mk_world {
  this : JsonRPC;
  heap : list promise_state;
  combinators : list all_record;
  onmessage : list nat;
  sent : list (nat * text);
  console : list value
}.

Definition constructor : JsonRPC :=
  {| id_counter := 0; methods := ∅; pending_callbacks := ∅; transport := None |}.

Definition fresh_world : world :=
  {| this := constructor; heap := []; combinators := []; onmessage := [];
     sent := []; console := [] |}.

Definition set_this (r : JsonRPC) (w : world) : world :=
  {| this := r; heap := heap w; combinators := combinators w;
     onmessage := onmessage w; sent := sent w; console := console w |}.

Definition set_heap (h : list promise_state) (w : world) : world :=
  {| this := this w; heap := h; combinators := combinators w;
     onmessage := onmessage w; sent := sent w; console := console w |}.

(** Computations of the engine: a state transformer that completes
    normally or abruptly. *)
Definition M (A : Type) : Type := world -> completion A * world.

Definition pure {A} (a : A) : M A := fun w => (Normal a, w).

Definition bind {A B} (m : M A) (k : A -> M B) : M B :=
  fun w =>
    match m w with
    | (Normal a, w') => k a w'
    | (Abrupt e, w') => (Abrupt e, w')
    end.

Definition lift {A} (c : completion A) : M A := fun w => (c, w).

Definition gets {A} (f : world -> A) : M A := fun w => (Normal (f w), w).

Definition modify (f : world -> world) : M unit := fun w => (Normal tt, f w).

(** [try { body } catch (e) { handler e }] *)
Definition try_catch {A} (body : M A) (handler : value -> M A) : M A :=
  fun w =>
    match body w with
    | (Normal a, w') => (Normal a, w')
    | (Abrupt e, w') => handler e w'
    end.

Notation "'do' x <- m ; k" := (bind m (fun x => k))
  (at level 10, x name, m at level 100, k at level 200).
Notation "'do' ' p <- m ; k" := (bind m (fun x => match x with p => k end))
  (at level 10, p pattern, m at level 100, k at level 200).
Notation "'exec' m ; k" := (bind m (fun _ => k))
  (at level 10, m at level 100, k at level 200).

Definition add_console (entries : list value) (w : world) : world :=
  {| this := this w; heap := heap w; combinators := combinators w;
     onmessage := onmessage w; sent := sent w; console := console w ++ entries |}.

Definition add_sent (t : nat) (data : text) (w : world) : world :=
  {| this := this w; heap := heap w; combinators := combinators w;
     onmessage := onmessage w; sent := sent w ++ [(t, data)]; console := console w |}.

Definition console_log (v : value) : M unit := modify (add_console [v]).

Definition transport_send (t : nat) (data : text) : M unit := modify (add_sent t data).

(** A promise settles once; later calls of resolve or reject are ignored. *)
Definition settle_in (p : nat) (st : promise_state) (h : list promise_state)
  : list promise_state :=
  match h !! p with
  | Some Pending => <[p := st]> h
  | _ => h
  end.

Fixpoint fulfilled_values (h : list promise_state) (inputs : list nat)
  : option (list value) :=
  match inputs with
  | [] => Some []
  | p :: rest =>
      match h !! p with
      | Some (Fulfilled v) =>
          match fulfilled_values h rest with
          | Some vs => Some (v :: vs)
          | None => None
          end
      | _ => None
      end
  end.

Fixpoint first_rejected (h : list promise_state) (inputs : list nat)
  : option value :=
  match inputs with
  | [] => None
  | p :: rest =>
      match h !! p with
      | Some (Rejected r) => Some r
      | _ => first_rejected h rest
      end
  end.

(** The reaction of a [Promise.all] to the settlement [st] of one of its
    inputs: a rejection rejects the result with the same reason, the last
    fulfilment fulfils it with the values in input order. *)
Definition react (st : promise_state) (h : list promise_state) (c : all_record)
  : list promise_state :=
  match st with
  | Pending => h
  | Rejected r => settle_in (all_result c) (Rejected r) h
  | Fulfilled _ =>
      match fulfilled_values h (all_inputs c) with
      | Some vs => settle_in (all_result c) (Fulfilled (VArr vs)) h
      | None => h
      end
  end.

Definition settle (p : nat) (st : promise_state) : M unit :=
  modify (fun w =>
    match heap w !! p with
    | Some Pending =>
        set_heap
          (fold_left
             (fun h c => if existsb (Nat.eqb p) (all_inputs c) then react st h c else h)
             (combinators w) (<[p := st]> (heap w)))
          w
    | _ => w
    end).

Definition resolve (p : nat) (v : value) : M unit := settle p (Fulfilled v).
Definition reject (p : nat) (reason : value) : M unit := settle p (Rejected reason).

Definition allocate (st : promise_state) : M nat :=
  fun w => (Normal (length (heap w)), set_heap (heap w ++ [st]) w).

(** [new Promise(executor)], before the executor runs. *)
Definition new_Promise : M nat := allocate Pending.

Definition Promise_reject (reason : value) : M nat := allocate (Rejected reason).

Definition Promise_all (inputs : list nat) : M nat :=
  do st <- gets (fun w =>
             match first_rejected (heap w) inputs with
             | Some r => Rejected r
             | None =>
                 match fulfilled_values (heap w) inputs with
                 | Some vs => Fulfilled (VArr vs)
                 | None => Pending
                 end
             end);
  do p <- allocate st;
  exec modify (fun w =>
    {| this := this w; heap := heap w;
       combinators := combinators w ++ [mk_all p inputs];
       onmessage := onmessage w; sent := sent w; console := console w |});
  pure p.

(** ** The class [JsonRPC] *)

Definition set_id_counter (n : N) (r : JsonRPC) : JsonRPC :=
  {| id_counter := n; methods := methods r;
     pending_callbacks := pending_callbacks r; transport := transport r |}.

Definition set_methods (m : gmap string callable) (r : JsonRPC) : JsonRPC :=
  {| id_counter := id_counter r; methods := m;
     pending_callbacks := pending_callbacks r; transport := transport r |}.

Definition set_pending_callbacks (m : gmap string callback) (r : JsonRPC) : JsonRPC :=
  {| id_counter := id_counter r; methods := methods r;
     pending_callbacks := m; transport := transport r |}.

Definition set_transport (t : option nat) (r : JsonRPC) : JsonRPC :=
  {| id_counter := id_counter r; methods := methods r;
     pending_callbacks := pending_callbacks r; transport := t |}.

Definition _create_uid : M string :=
  do uid <- gets (fun w => id_counter (this w));
  exec modify (fun w => set_this (set_id_counter (uid + 1) (this w)) w);
  pure (ToString (VNum (Z.of_N uid))).

Definition _build_request (method_name uid kwargs : value) (args : list value)
  : value :=
  let request := [("jsonrpc", VStr "2.0"); ("method", method_name)] in
  let request :=
    if negb (is_nullish uid) then set_field "id" uid request else request in
  let request :=
    if negb (is_nullish kwargs) then set_field "params" kwargs request
    else if (0 <? length args)%nat then set_field "params" (VArr args) request
    else request in
  VObj request.

Definition _build_error (message code request : value) : M value :=
  let error :=
    [("jsonrpc", VStr "2.0");
     ("error", VObj [("message", message); ("code", code)]);
     ("id", VNull)] in
  do has_id <- lift (has "id" request);
  do error <-
    (if has_id then
       do id <- lift (get request "id");
       pure (set_field "id" id error)
     else pure error);
  exec console_log
    (VStr ("JSON-RPC Request Error: " ++ ToString code ++ " " ++ ToString message));
  exec console_log request;
  pure (VObj error).

Definition register_method (method_name : value) (method : callable) : M unit :=
  modify (fun w =>
    set_this
      (set_methods (<[ToPropertyKey method_name := method]> (methods (this w))) (this w))
      w).

Definition register_transport (t : nat) : M unit :=
  exec modify (fun w => set_this (set_transport (Some t) (this w)) w);
  modify (fun w =>
    {| this := this w; heap := heap w; combinators := combinators w;
       onmessage := onmessage w ++ [t]; sent := sent w; console := console w |}).

(** [this.pending_callbacks[uid] = f] *)
Definition set_pending (uid : string) (f : callback) : M unit :=
  modify (fun w =>
    set_this
      (set_pending_callbacks (<[uid := f]> (pending_callbacks (this w))) (this w))
      w).

(** [delete this.pending_callbacks[uid]] *)
Definition delete_pending (uid : string) : M unit :=
  modify (fun w =>
    set_this
      (set_pending_callbacks (delete uid (pending_callbacks (this w))) (this w))
      w).

(** Calling a stored closure with [(result, error)]. *)
Definition invoke (f : callback) (result error : value) : M unit :=
  match f with
  | call_finalize p =>
      if negb (is_nullish error) then reject p error else resolve p result
  | batch_finalize p name idx =>
      let response := [("method", name); ("index", VNum (Z.of_nat idx))] in
      if negb (is_nullish error)
      then reject p (VObj (set_field "error" error response))
      else resolve p (VObj (set_field "result" result response))
  end.

(** The body of [requests.forEach] in [send_batch_request], with the two
    arrays it fills. *)
Fixpoint batch_forEach (requests : list value) (idx : nat)
    (batch_request : list value) (promises : list nat)
  : M (list value * list nat) :=
  match requests with
  | [] => pure (batch_request, promises)
  | request :: rest =>
      do name <- lift (get request "method");
      do has_params <- lift (has "params" request);
      do '(kwargs, args) <-
        (if has_params then
           do params <- lift (get request "params");
           if instanceof_Object params then pure (params, VArr [])
           else pure (VNull, params)
         else pure (VNull, VArr []));
      do type <- lift (get request "type");
      do '(uid, promises) <-
        (if loose_eq type Lit_request then
           do uid <- _create_uid;
           do p <- new_Promise;
           exec set_pending uid (batch_finalize p name idx);
           pure (VStr uid, (promises ++ [p])%list)
         else pure (VNull, promises));
      do args <- lift (spread args);
      batch_forEach rest (S idx)
        (batch_request ++ [_build_request name uid kwargs args])%list promises
  end.

Definition send_batch_request (requests : list value) : M nat :=
  do t <- gets (fun w => transport (this w));
  match t with
  | None => Promise_reject (Error "No Transport Initialized")
  | Some t =>
      do '(batch_request, promises) <- batch_forEach requests 0 [] [];
      exec transport_send t (JSON_stringify (VArr batch_request));
      Promise_all promises
  end.

Definition call_method (method_name : value) (args : list value) : M nat :=
  do uid <- _create_uid;
  let request := _build_request method_name (VStr uid) VNull args in
  do t <- gets (fun w => transport (this w));
  match t with
  | Some t =>
      exec transport_send t (JSON_stringify request);
      do p <- new_Promise;
      exec set_pending uid (call_finalize p);
      pure p
  | None => Promise_reject (Error "No Transport Initialized")
  end.

Definition call_method_with_kwargs (method_name kwargs : value) : M nat :=
  do uid <- _create_uid;
  let request := _build_request method_name (VStr uid) kwargs [] in
  do t <- gets (fun w => transport (this w));
  match t with
  | Some t =>
      exec transport_send t (JSON_stringify request);
      do p <- new_Promise;
      exec set_pending uid (call_finalize p);
      pure p
  | None => Promise_reject (Error "No Transport Initialized")
  end.

Definition notify (method_name : value) (args : list value) : M unit :=
  let notification := _build_request method_name VNull VNull args in
  do t <- gets (fun w => transport (this w));
  match t with
  | Some t => transport_send t (JSON_stringify notification)
  | None => pure tt
  end.

Definition _handle_request (request : value) : M unit :=
  do name <- lift (get request "method");
  do method <- gets (fun w => methods (this w) !! ToPropertyKey name);
  match method with
  | None => console_log (VStr ("Invalid Method: " ++ ToString name))
  | Some method =>
      do response <-
        try_catch
          (do has_params <- lift (has "params" request);
           do '(ret, response) <-
             (if has_params then
                do args <- lift (get request "params");
                if instanceof_Array args then
                  do args <- lift (spread args);
                  do ret <- lift (method args);
                  pure (ret, VNull)
                else if instanceof_Object args then
                  do ret <- lift (method [args]);
                  pure (ret, VNull)
                else
                  do response <-
                    _build_error (VStr "Invalid Parameters") (VNum (-32602)) request;
                  pure (VNull, response)
              else
                do ret <- lift (method []);
                pure (ret, VNull));
           do has_id <- lift (has "id" request);
           if has_id && is_nullish response then
             do id <- lift (get request "id");
             pure (VObj [("jsonrpc", VStr "2.0"); ("result", ret); ("id", id)])
           else pure response)
          (fun error =>
             do has_message <- lift (has "message" error);
             do msg <-
               (if has_message then
                  do message <- lift (get error "message");
                  pure (if negb (loose_eq message Lit_empty) then message
                        else VStr "Server Error")
                else pure (VStr "Server Error"));
             _build_error msg (VNum (-31000)) request);
      do t <- gets (fun w => transport (this w));
      match t with
      | Some t =>
          if negb (is_nullish response)
          then transport_send t (JSON_stringify response)
          else pure tt
      | None => pure tt
      end
  end.

Definition _handle_response (response : value) : M unit :=
  do result <- lift (get response "result");
  do id <- lift (get response "id");
  if negb (is_nullish result) && negb (is_nullish id) then
    let uid := id in
    do response_finalize <-
      gets (fun w => pending_callbacks (this w) !! ToPropertyKey uid);
    match response_finalize with
    | Some response_finalize =>
        exec invoke response_finalize result VUndef;
        delete_pending (ToPropertyKey uid)
    | None =>
        exec console_log (VStr "No Registered RPC Call for uid:");
        console_log response
    end
  else
    do error <- lift (get response "error");
    if negb (is_nullish error) then
      let uid := id in
      do response_finalize <-
        gets (fun w => pending_callbacks (this w) !! ToPropertyKey uid);
      match response_finalize with
      | Some response_finalize =>
          exec invoke response_finalize VNull error;
          delete_pending (ToPropertyKey uid)
      | None =>
          exec console_log (VStr "JSON-RPC error recieved");
          console_log error
      end
    else
      exec console_log (VStr "Invalid JSON-RPC response");
      console_log response.

Definition _validate_and_dispatch (rpc_data : value) : M unit :=
  do jsonrpc <- lift (get rpc_data "jsonrpc");
  if negb (loose_eq jsonrpc Lit_2_0) then
    exec console_log (VStr "Invalid JSON-RPC data");
    console_log rpc_data
  else
    do has_result <- lift (has "result" rpc_data);
    do is_response <-
      (if has_result then pure true else lift (has "error" rpc_data));
    if is_response then _handle_response rpc_data
    else
      do has_method <- lift (has "method" rpc_data);
      if has_method then _handle_request rpc_data
      else
        exec console_log (VStr "Invalid JSON-RPC data");
        console_log rpc_data.

(** [for (let data of rpc_data) this._validate_and_dispatch(data)] *)
Fixpoint for_of (rpc_data : list value) : M unit :=
  match rpc_data with
  | [] => pure tt
  | data :: rest => exec _validate_and_dispatch data; for_of rest
  end.

Definition process_received (encoded_data : text) : M unit :=
  do rpc_data <- lift (JSON_parse encoded_data);
  if instanceof_Array rpc_data then
    do items <- lift (spread rpc_data);
    for_of items
  else _validate_and_dispatch rpc_data.

(** * Statements: auxiliary definitions *)

Open Scope list_scope.

(** The two ways [_handle_response] completes a pending call: the stored
    closure is called with the result, or with [null] and the error, and
    the entry is deleted. *)
Definition result_path (f : callback) (result : value) (uid : string) : M unit :=
  exec invoke f result VUndef;
  delete_pending uid.

Definition error_path (f : callback) (error : value) (uid : string) : M unit :=
  exec invoke f VNull error;
  delete_pending uid.

(** Sample worlds: a constructed engine bound to transport 7, and the same
    after one call, which leaves identifier "0" pending on promise 0. *)
Definition connected : world := snd (register_transport 7 fresh_world).

Definition one_call : world := snd (call_method (VStr "printer.info") [] connected).

(** Sample frames for identifier "0". *)
Definition rpc_error : value :=
  VObj [("code", VNum 400); ("message", VStr "Bad Request")].

Definition result_and_error : list (string * value) :=
  [("jsonrpc", VStr "2.0"); ("result", VNum 1); ("error", rpc_error); ("id", VStr "0")].

Definition error_only : list (string * value) :=
  [("jsonrpc", VStr "2.0"); ("error", rpc_error); ("id", VStr "0")].

Definition null_result : list (string * value) :=
  [("jsonrpc", VStr "2.0"); ("result", VNull); ("id", VStr "0")].

(** The frames [_handle_request] answers with. *)
Definition error_frame (message code id : value) : value :=
  VObj [("jsonrpc", VStr "2.0");
        ("error", VObj [("message", message); ("code", code)]);
        ("id", id)].

Definition result_frame (ret id : value) : value :=
  VObj [("jsonrpc", VStr "2.0"); ("result", ret); ("id", id)].

(** The id of an error frame: that of the request when it has one. *)
Definition reply_id (fields : list (string * value)) : value :=
  if present "id" fields then field "id" fields else VNull.

(** How a registered callable is applied to a request: to the items of an
    array, to an object as its single argument, to nothing when there are
    no params; [None] when params has neither shape. *)
Definition applied (method : callable) (fields : list (string * value))
  : option (completion value) :=
  if present "params" fields then
    match field "params" fields with
    | VArr items => Some (method items)
    | VObj _ | VError _ _ => Some (method [field "params" fields])
    | _ => None
    end
  else Some (method []).

(** The message taken from a thrown object: its [message] when it has one
    that is not loosely equal to the empty string. *)
Definition thrown_message (error : value) : value :=
  match error with
  | VObj fields =>
      if present "message" fields && negb (loose_eq (field "message" fields) Lit_empty)
      then field "message" fields
      else VStr "Server Error"
  | VError _ message =>
      if String.eqb message "" then VStr "Server Error" else VStr message
  | _ => VStr "Server Error"
  end.

(** [transport.send(data)] when a transport is bound. *)
Definition reply (data : text) (w : world) : world :=
  match transport (this w) with
  | Some t => add_sent t data w
  | None => w
  end.

Definition request_error_log (message code : value) (fields : list (string * value))
  : list value :=
  [VStr ("JSON-RPC Request Error: " ++ ToString code ++ " " ++ ToString message)%string;
   VObj fields].

(** Sample callables and a world where they are registered on the
    connected engine. *)
Definition echo : callable :=
  fun args => match args with [x] => Normal x | _ => Normal VUndef end.

Definition throws_error : callable := fun _ => Abrupt (Error "boom").

Definition throws_string : callable := fun _ => Abrupt (VStr "boom").

Definition serving : world :=
  snd (register_method (VStr "throws_string") throws_string
    (snd (register_method (VStr "throws_error") throws_error
      (snd (register_method (VStr "echo") echo connected))))).

Definition bad_notification : list (string * value) :=
  [("jsonrpc", VStr "2.0"); ("method", VStr "echo"); ("params", VNum 5)].

Definition request_of (name : string) : list (string * value) :=
  [("jsonrpc", VStr "2.0"); ("method", VStr name); ("id", VStr "7")].

(** The batch of the specification and the frames that answer it. The
    engine reads the kind of an entry from its [type] attribute. *)
Definition batch_item (method kind : string) : value :=
  VObj [("method", VStr method); ("type", VStr kind)].

Definition abc_batch : list value :=
  [batch_item "a" "request"; batch_item "b" "notification"; batch_item "c" "request"].

Definition response_to (uid : string) (result : value) : text :=
  Encoding (VObj [("jsonrpc", VStr "2.0"); ("result", result); ("id", VStr uid)]).

Definition error_to (uid : string) (error : value) : text :=
  Encoding (VObj [("jsonrpc", VStr "2.0"); ("error", error); ("id", VStr uid)]).

(** The payloads the aggregate of a batch settles with. *)
Definition item_result (method : string) (idx : Z) (result : value) : value :=
  VObj [("method", VStr method); ("index", VNum idx); ("result", result)].

Definition item_error (method : string) (idx : Z) (error : value) : value :=
  VObj [("method", VStr method); ("index", VNum idx); ("error", error)].

(** A constructed engine bound to transport [t], after it sent the batch. *)
Definition batch_sent (t : nat) : world :=
  snd (send_batch_request abc_batch (snd (register_transport t fresh_world))).

(** Inbound texts delivered one after the other by the transport. *)
Definition deliver (texts : list text) (w : world) : world :=
  fold_left (fun w data => snd (process_received data w)) texts w.

(** An invocation of one of the two call methods. *)
Inductive call : Type :=
| Call (method_name : value) (args : list value)
| Call_with_kwargs (method_name kwargs : value).

Definition perform (c : call) : M nat :=
  match c with
  | Call method_name args => call_method method_name args
  | Call_with_kwargs method_name kwargs => call_method_with_kwargs method_name kwargs
  end.

(** The two call methods after their first line: the request built around
    the uid just drawn is sent and its completion registered, or the
    returned promise is rejected. *)
Definition request_of_call (c : call) (uid : string) : value :=
  match c with
  | Call method_name args => _build_request method_name (VStr uid) VNull args
  | Call_with_kwargs method_name kwargs => _build_request method_name (VStr uid) kwargs []
  end.

Definition send_request (request : value) (uid : string) : M nat :=
  do t <- gets (fun w => transport (this w));
  match t with
  | Some t =>
      exec transport_send t (JSON_stringify request);
      do p <- new_Promise;
      exec set_pending uid (call_finalize p);
      pure p
  | None => Promise_reject (Error "No Transport Initialized")
  end.


(** An identifier read back as an integer. *)
Definition parse_uid (uid : string) : option Z :=
  option_map Z.of_int (NilZero.int_of_string uid).


(** The frames of an inbound text, and whether a frame would complete the
    call pending under [uid]: it names that identifier and carries a
    non-null result with a non-null id, or a non-null error. *)
Definition frames (data : text) : list value :=
  match data with
  | Malformed => []
  | Encoding (VArr items) => items
  | Encoding v => [v]
  end.

Definition completes (uid : string) (frame : value) : bool :=
  match frame with
  | VObj fields =>
      String.eqb (ToPropertyKey (field "id" fields)) uid
      && (negb (is_nullish (field "result" fields)) && negb (is_nullish (field "id" fields))
          || negb (is_nullish (field "error" fields)))
  | _ => false
  end.

(** The operations of the engine as events, and the execution of a
    sequence of them; an exception ends the operation that threw it, not
    the engine. *)
Inductive event : Type :=
| Invoke (c : call)
| Notify (method_name : value) (args : list value)
| Send_batch (requests : list value)
| Receive (data : text)
| Register_method (method_name : value) (method : callable)
| Register_transport (t : nat).

Definition step (e : event) (w : world) : world :=
  match e with
  | Invoke c => snd (perform c w)
  | Notify method_name args => snd (notify method_name args w)
  | Send_batch requests => snd (send_batch_request requests w)
  | Receive data => snd (process_received data w)
  | Register_method method_name method => snd (register_method method_name method w)
  | Register_transport t => snd (register_transport t w)
  end.


(** ** Auxiliary definitions for the remaining operations *)

(** A sequence of operations, and the worlds an engine can be in. *)
Definition run (es : list event) (w : world) : world :=
  fold_left (fun w e => step e w) es w.

Definition reachable (w : world) : Prop := exists es, w = run es fresh_world.

(** The uid [_create_uid] makes of a counter value. *)
Definition numeral (n : N) : string := ToString (VNum (Z.of_N n)).


(** A frame the engine does not treat as JSON-RPC: anything but [null],
    [undefined] and arrays whose [jsonrpc] is not loosely "2.0". *)
Definition untagged (rpc_data : value) : bool :=
  match get rpc_data "jsonrpc" with
  | Normal tag => negb (loose_eq tag Lit_2_0)
  | Abrupt _ => false
  end.

(** Promises are never lost and a settled promise keeps its state. *)
Definition heap_grows (h h' : list promise_state) : Prop :=
  length h <= length h' /\
  forall q s, h !! q = Some s -> s <> Pending -> h' !! q = Some s.

(** What receiving data can do to the world: the dispatch table, the
    transport and the counter stay, pending entries are only removed,
    promises only settle, frames and console lines are only added. *)
Definition received (w w' : world) : Prop :=
  methods (this w') = methods (this w) /\
  transport (this w') = transport (this w) /\
  id_counter (this w') = id_counter (this w) /\
  (forall uid f,
      pending_callbacks (this w') !! uid = Some f ->
      pending_callbacks (this w) !! uid = Some f) /\
  heap_grows (heap w) (heap w') /\
  combinators w' = combinators w /\
  onmessage w' = onmessage w /\
  (exists frames, sent w' = sent w ++ frames) /\
  (exists entries, console w' = console w ++ entries).

(** What an outbound operation ([call_method], [call_method_with_kwargs],
    [notify], [send_batch_request]) may change: it draws identifiers,
    registers completions under the identifiers it drew, creates promises
    and sends frames, the latter only when a transport is bound. *)
Definition issued (w w' : world) : Prop :=
  methods (this w') = methods (this w) /\
  transport (this w') = transport (this w) /\
  onmessage w' = onmessage w /\
  console w' = console w /\
  (id_counter (this w) <= id_counter (this w'))%N /\
  (forall uid f, pending_callbacks (this w') !! uid = Some f ->
     pending_callbacks (this w) !! uid = Some f \/
     exists n, (id_counter (this w) <= n < id_counter (this w'))%N /\ uid = numeral n) /\
  (forall n, (n < id_counter (this w))%N ->
     pending_callbacks (this w') !! numeral n = pending_callbacks (this w) !! numeral n) /\
  (exists created, heap w' = heap w ++ created) /\
  (exists frames, sent w' = sent w ++ frames /\
                  (transport (this w) = None -> frames = [])).

(** The transports registered by a sequence of operations, oldest first. *)
Fixpoint transports (es : list event) : list nat :=
  match es with
  | [] => []
  | Register_transport t :: rest => t :: transports rest
  | _ :: rest => transports rest
  end.

(** Whether an operation registers a method under the key [k]. *)
Definition registers (k : string) (e : event) : bool :=
  match e with
  | Register_method method_name _ => String.eqb (ToPropertyKey method_name) k
  | _ => false
  end.


(** Whether the body of [requests.forEach] runs through on an entry: the
    entry is an object, and its params, when it has any, are an object or
    can be spread into an argument list. *)
Definition well_formed_entry (request : value) : bool :=
  match has "params" request with
  | Normal true =>
      match get request "params" with
      | Normal params =>
          instanceof_Object params ||
          match spread params with
          | Normal _ => true
          | Abrupt _ => false
          end
      | Abrupt _ => false
      end
  | Normal false => true
  | Abrupt _ => false
  end.

(** Whether an entry of a batch asks for a response ([request.type ==
    "request"]), and the number of such entries. *)
Definition is_request (request : value) : bool :=
  match get request "type" with
  | Normal type => loose_eq type Lit_request
  | Abrupt _ => false
  end.

Fixpoint request_count (requests : list value) : nat :=
  match requests with
  | [] => 0
  | request :: rest =>
      if is_request request then S (request_count rest) else request_count rest
  end.

(** The state of [Promise.all(promises)] when every input is pending. *)
Definition aggregate_of (k : nat) : promise_state :=
  match k with
  | O => Fulfilled (VArr [])
  | S _ => Pending
  end.

(** Sample batches: one whose second entry carries a number as params,
    which cannot be spread, and one of notifications only. *)
Definition broken_batch : list value :=
  [batch_item "a" "request";
   VObj [("method", VStr "b"); ("type", VStr "request"); ("params", VNum 5)]].

Definition notification_batch : list value :=
  [batch_item "a" "notification";
   VObj [("method", VStr "b"); ("params", VArr [VNum 1])]].

(** The argument list of a call as the peer reads it from the frame. *)
Definition on_the_wire (args : list value) : list value :=
  match to_JSON (VArr args) with
  | VArr items => items
  | _ => []
  end.

(** The error object of the frame that answers a thrown object. *)
Definition server_error (error : value) : value :=
  VObj [("message", thrown_message error); ("code", VNum (-31000))].

(** Whether a frame passes the version check of [_validate_and_dispatch],
    and whether an outbound text is such a frame or an array of them. *)
Definition versioned (rpc_data : value) : bool :=
  match get rpc_data "jsonrpc" with
  | Normal tag => loose_eq tag Lit_2_0
  | Abrupt _ => false
  end.

Definition versioned_text (data : text) : bool :=
  match data with
  | Encoding (VArr items) => forallb versioned items
  | Encoding rpc_data => versioned rpc_data
  | Malformed => false
  end.

(** What an operation adds to the frames sent. *)
Definition emits (w w' : world) : Prop :=
  exists frames,
    sent w' = sent w ++ frames /\
    Forall (fun m => versioned_text (snd m) = true) frames.

(** * Properties *)

Arguments add_console : simpl never.
Arguments add_sent : simpl never.
Arguments set_heap : simpl never.
Arguments set_this : simpl never.

Ltac step_monad :=
  unfold console_log, transport_send, set_pending, delete_pending;
  unfold bind, lift, gets, modify, pure; simpl.

(** ** The embedding on the examples of the specification *)

Example ToString_examples :
  ToString (VNum (-32602)) = "-32602" /\
  ToString (VArr [VNum 1; VNull; VStr "a"]) = "1,,a" /\
  ToString (VObj [("v", VNum 5)]) = "[object Object]".
Proof. repeat split. Qed.

Example loose_eq_examples :
  loose_eq (VStr "2.0") Lit_2_0 = true /\
  loose_eq (VNum 2) Lit_2_0 = true /\
  loose_eq (VStr "2") Lit_2_0 = false /\
  loose_eq (VNum 0) Lit_empty = true /\
  loose_eq VNull Lit_empty = false.
Proof. repeat split. Qed.

(** The registered method "echo" answers its request with one result
    frame. *)
Example echo_is_answered :
  process_received
    (Encoding (VObj [("jsonrpc", VStr "2.0"); ("method", VStr "echo");
                     ("params", VObj [("v", VNum 5)]); ("id", VStr "7")]))
    serving =
  (Normal tt,
   add_sent 7
     (Encoding (VObj [("jsonrpc", VStr "2.0"); ("result", VObj [("v", VNum 5)]);
                      ("id", VStr "7")]))
     serving).
Proof. reflexivity. Qed.

(** A registered method that throws [Error("boom")] is answered with one
    error frame. *)
Example thrown_error_is_answered :
  sent (snd (process_received (Encoding (VObj (request_of "throws_error"))) serving)) =
  [(7, Encoding (VObj [("jsonrpc", VStr "2.0");
                       ("error", VObj [("message", VStr "boom");
                                       ("code", VNum (-31000))]);
                       ("id", VStr "7")]))].
Proof. reflexivity. Qed.

(** [notify] sends a frame without id and registers nothing. *)
Example notify_registers_nothing :
  notify (VStr "server.restart") [] connected =
  (Normal tt,
   add_sent 7
     (Encoding (VObj [("jsonrpc", VStr "2.0"); ("method", VStr "server.restart")]))
     connected).
Proof. reflexivity. Qed.

(** ** Worlds and promises *)

Lemma set_heap_same w : set_heap (heap w) w = w.
Proof. destruct w; reflexivity. Qed.

Lemma add_console_app l1 l2 w :
  add_console l2 (add_console l1 w) = add_console (l1 ++ l2) w.
Proof. unfold add_console; simpl. now rewrite <- app_assoc. Qed.

Lemma this_reply data w : this (reply data w) = this w.
Proof. unfold reply. now destruct (transport (this w)). Qed.

Lemma sent_reply data w t :
  transport (this w) = Some t -> sent (reply data w) = sent w ++ [(t, data)].
Proof. intros Ht. unfold reply. now rewrite Ht. Qed.

(** Settling touches the promises only. *)
Lemma settle_heap p st w : exists h, settle p st w = (Normal tt, set_heap h w).
Proof.
  unfold settle, modify.
  destruct (heap w !! p) as [[| |]|]; eauto;
    exists (heap w); now rewrite set_heap_same.
Qed.

Lemma invoke_heap f result error w :
  exists h, invoke f result error w = (Normal tt, set_heap h w).
Proof.
  destruct f; simpl; destruct (negb (is_nullish error)); apply settle_heap.
Qed.

(** What a completion leaves behind: a normal completion, the entry
    deleted, nothing sent, nothing logged. *)
Lemma completion_effects f result error uid w :
  exists h,
    (exec invoke f result error; delete_pending uid) w =
    (Normal tt,
     set_this (set_pending_callbacks (delete uid (pending_callbacks (this w))) (this w))
       (set_heap h w)).
Proof.
  destruct (invoke_heap f result error w) as [h Hh].
  exists h. unfold bind. rewrite Hh. reflexivity.
Qed.

Lemma completion_heap f result error uid w :
  heap (snd ((exec invoke f result error; delete_pending uid) w)) =
  heap (snd (invoke f result error w)).
Proof.
  destruct (invoke_heap f result error w) as [h Hh].
  unfold bind. now rewrite Hh.
Qed.

(** A settled promise is never settled again, and settling a pending
    promise gives it its state whatever the combinators do. *)
Lemma settle_in_settled q st h p s :
  h !! p = Some s -> s <> Pending -> settle_in q st h !! p = Some s.
Proof.
  intros Hp Hs. unfold settle_in.
  destruct (h !! q) as [[| |]|] eqn:Hq; trivial.
  destruct (decide (q = p)) as [->|Hne]; [congruence|].
  now rewrite list_lookup_insert_ne.
Qed.

Lemma react_settled st h c p s :
  h !! p = Some s -> s <> Pending -> react st h c !! p = Some s.
Proof.
  intros Hp Hs. destruct st; simpl; trivial.
  - destruct (fulfilled_values h (all_inputs c)); trivial.
    now apply settle_in_settled.
  - now apply settle_in_settled.
Qed.

Lemma settle_sets p st w :
  st <> Pending -> heap w !! p = Some Pending ->
  heap (snd (settle p st w)) !! p = Some st.
Proof.
  intros Hst Hp. unfold settle, modify. simpl. rewrite Hp.
  unfold set_heap. simpl.
  assert (Hfold : forall cs h, h !! p = Some st ->
    fold_left (fun h c => if existsb (Nat.eqb p) (all_inputs c) then react st h c else h)
      cs h !! p = Some st).
  { induction cs as [|c cs IH]; intros h Hh; [exact Hh|].
    simpl. apply IH. destruct (existsb (Nat.eqb p) (all_inputs c)); trivial.
    now apply react_settled. }
  apply Hfold. apply list_lookup_insert_eq. now apply lookup_lt_Some in Hp.
Qed.

Lemma nonnull_present k fields :
  is_nullish (field k fields) = false -> present k fields = true.
Proof. unfold field, present. now destruct (assoc k fields). Qed.


(** ** Inbound frames *)

Section Inbound.

(** One frame, an object carrying the protocol tag, received in [w]. *)
Variables (w : world) (fields : list (string * value)).
Hypothesis protocol_tag : loose_eq (field "jsonrpc" fields) Lit_2_0 = true.

(** *** Responses *)

Lemma dispatch_response :
  present "result" fields || present "error" fields = true ->
  process_received (Encoding (VObj fields)) w = _handle_response (VObj fields) w.
Proof.
  intros Hshape.
  change (_validate_and_dispatch (VObj fields) w = _handle_response (VObj fields) w).
  unfold _validate_and_dispatch. step_monad. rewrite protocol_tag. simpl.
  destruct (present "result" fields); simpl in *; [reflexivity|].
  now rewrite Hshape.
Qed.

Lemma handle_response_result f :
  is_nullish (field "result" fields) = false ->
  is_nullish (field "id" fields) = false ->
  pending_callbacks (this w) !! ToPropertyKey (field "id" fields) = Some f ->
  _handle_response (VObj fields) w =
  result_path f (field "result" fields) (ToPropertyKey (field "id" fields)) w.
Proof.
  intros Hr Hi Hf. unfold _handle_response, result_path. step_monad.
  rewrite Hr, Hi. simpl. now rewrite Hf.
Qed.

Lemma handle_response_error f :
  negb (is_nullish (field "result" fields)) && negb (is_nullish (field "id" fields))
  = false ->
  is_nullish (field "error" fields) = false ->
  pending_callbacks (this w) !! ToPropertyKey (field "id" fields) = Some f ->
  _handle_response (VObj fields) w =
  error_path f (field "error" fields) (ToPropertyKey (field "id" fields)) w.
Proof.
  intros Hr He Hf. unfold _handle_response, error_path. step_monad.
  rewrite Hr. simpl. rewrite He. simpl. now rewrite Hf.
Qed.

Lemma handle_response_invalid :
  negb (is_nullish (field "result" fields)) && negb (is_nullish (field "id" fields))
  = false ->
  is_nullish (field "error" fields) = true ->
  _handle_response (VObj fields) w =
  (Normal tt, add_console [VStr "Invalid JSON-RPC response"; VObj fields] w).
Proof.
  intros Hr He. unfold _handle_response. step_monad.
  rewrite Hr. simpl. rewrite He. simpl. now rewrite add_console_app.
Qed.

Lemma handle_response_orphan :
  pending_callbacks (this w) !! ToPropertyKey (field "id" fields) = None ->
  exists message detail,
    _handle_response (VObj fields) w =
    (Normal tt, add_console [VStr message; detail] w).
Proof.
  intros Hf. unfold _handle_response. step_monad.
  destruct (negb (is_nullish (field "result" fields))
            && negb (is_nullish (field "id" fields)));
    simpl; [rewrite Hf; simpl; rewrite add_console_app; eauto|].
  destruct (negb (is_nullish (field "error" fields))); simpl;
    [rewrite Hf; simpl|]; rewrite add_console_app; eauto.
Qed.

(** C1, amended: for a response frame with a non-null id and a non-null
    error whose identifier is pending, the error path is taken exactly
    when the result is absent or null; with a non-null result the result
    path is taken and the error is ignored. The promise of a pending call
    is rejected with the error in the first case and fulfilled with the
    result in the second. *)
Theorem error_path_iff_result_null (f : callback) :
  is_nullish (field "id" fields) = false ->
  is_nullish (field "error" fields) = false ->
  pending_callbacks (this w) !! ToPropertyKey (field "id" fields) = Some f ->
  let result := field "result" fields in
  let error := field "error" fields in
  let uid := ToPropertyKey (field "id" fields) in
  let r := process_received (Encoding (VObj fields)) w in
  r = (if is_nullish result then error_path f error uid w
       else result_path f result uid w) /\
  forall p : nat,
    f = call_finalize p -> heap w !! p = Some Pending ->
    heap (snd r) !! p =
    Some (if is_nullish result then Rejected error else Fulfilled result).
Proof.
  intros Hid Herr Hf result error uid r. subst result error uid r.
  assert (Hr : process_received (Encoding (VObj fields)) w =
               (if is_nullish (field "result" fields)
                then error_path f (field "error" fields)
                       (ToPropertyKey (field "id" fields)) w
                else result_path f (field "result" fields)
                       (ToPropertyKey (field "id" fields)) w)).
  { rewrite dispatch_response.
    - destruct (is_nullish (field "result" fields)) eqn:Hres.
      + apply handle_response_error; trivial. now rewrite Hres.
      + now apply handle_response_result.
    - rewrite (nonnull_present "error"); trivial. apply orb_true_r. }
  split; [exact Hr|].
  intros p -> Hp. rewrite Hr.
  destruct (is_nullish (field "result" fields)) eqn:Hres.
  - unfold error_path. rewrite completion_heap.
    unfold invoke. rewrite Herr. cbn [negb]. now apply settle_sets.
  - unfold result_path. rewrite completion_heap.
    unfold invoke. cbn [is_nullish negb]. now apply settle_sets.
Qed.


(** *** Requests *)

Hypothesis no_result : present "result" fields = false.
Hypothesis no_error : present "error" fields = false.
Hypothesis has_method : present "method" fields = true.

Lemma dispatch_request :
  process_received (Encoding (VObj fields)) w = _handle_request (VObj fields) w.
Proof.
  change (_validate_and_dispatch (VObj fields) w = _handle_request (VObj fields) w).
  unfold _validate_and_dispatch. step_monad.
  rewrite protocol_tag, no_result. simpl. rewrite no_error. simpl.
  now rewrite has_method.
Qed.

Lemma build_error_object message code v :
  _build_error message code (VObj fields) v =
  (Normal (error_frame message code (reply_id fields)),
   add_console (request_error_log message code fields) v).
Proof.
  unfold _build_error, reply_id, error_frame, request_error_log. step_monad.
  destruct (present "id" fields); simpl; now rewrite add_console_app.
Qed.

(** The whole of [_handle_request] for a registered method. *)
Lemma handle_request_registered method :
  methods (this w) !! ToPropertyKey (field "method" fields) = Some method ->
  _handle_request (VObj fields) w =
  match applied method fields with
  | None =>
      (Normal tt,
       reply (JSON_stringify
                (error_frame (VStr "Invalid Parameters") (VNum (-32602))
                   (reply_id fields)))
         (add_console
            (request_error_log (VStr "Invalid Parameters") (VNum (-32602)) fields) w))
  | Some (Normal ret) =>
      if present "id" fields
      then (Normal tt, reply (JSON_stringify (result_frame ret (field "id" fields))) w)
      else (Normal tt, w)
  | Some (Abrupt error) =>
      if instanceof_Object error then
        (Normal tt,
         reply (JSON_stringify
                  (error_frame (thrown_message error) (VNum (-31000))
                     (reply_id fields)))
           (add_console
              (request_error_log (thrown_message error) (VNum (-31000)) fields) w))
      else (Abrupt TypeError, w)
  end.
Proof.
  intros Hm. unfold _handle_request, applied. step_monad.
  unfold callable in *. rewrite Hm. clear Hm.
  unfold try_catch. step_monad.
  destruct (present "params" fields); simpl;
    [destruct (field "params" fields) as [| | b | z | s | items | fs | name message];
     simpl|];
    rewrite ?build_error_object; simpl;
    repeat match goal with
      | |- context [method ?a] => destruct (method a) as [ret|error]; simpl
      end;
    try (destruct error as [| | b' | z' | s' | items' | fs' | name' message']; simpl;
         [.. | destruct (present "message" fs'); simpl;
               [destruct (loose_eq (field "message" fs') Lit_empty); simpl|]
             | destruct (String.eqb message' ""); simpl];
         rewrite ?build_error_object; simpl);
    try (destruct (present "id" fields); simpl);
    unfold reply, add_console; simpl;
    destruct (transport (this w)); reflexivity.
Qed.

(** A callable that throws an object is answered with one error frame
    carrying code -31000 and the message of the object, or "Server
    Error" when it has none or an empty one. *)
Lemma thrown_object_is_answered method t error :
  methods (this w) !! ToPropertyKey (field "method" fields) = Some method ->
  transport (this w) = Some t ->
  applied method fields = Some (Abrupt error) ->
  instanceof_Object error = true ->
  let r := process_received (Encoding (VObj fields)) w in
  fst r = Normal tt /\
  sent (snd r) =
  sent w ++ [(t, JSON_stringify
                   (error_frame (thrown_message error) (VNum (-31000))
                      (reply_id fields)))].
Proof.
  intros Hm Ht Happ Hobj r. subst r.
  rewrite dispatch_request, (handle_request_registered method) by trivial.
  rewrite Happ, Hobj. simpl. split; [reflexivity|].
  now rewrite (sent_reply _ _ t).
Qed.

(** C2, amended: while a transport is bound, a dispatch-side error frame
    is sent whether or not the inbound frame carried an id; its id is the
    id of the frame when there is one and null otherwise. A frame without
    an id whose callable returns is not answered at all. *)
Theorem dispatch_error_is_sent_with_or_without_id (method : callable) (t : nat) :
  methods (this w) !! ToPropertyKey (field "method" fields) = Some method ->
  transport (this w) = Some t ->
  let r := process_received (Encoding (VObj fields)) w in
  let id := if present "id" fields then field "id" fields else VNull in
  match applied method fields with
  | None =>
      sent (snd r) =
      sent w ++ [(t, JSON_stringify
                       (error_frame (VStr "Invalid Parameters") (VNum (-32602)) id))]
  | Some (Abrupt error) =>
      instanceof_Object error = true ->
      sent (snd r) =
      sent w ++ [(t, JSON_stringify
                       (error_frame (thrown_message error) (VNum (-31000)) id))]
  | Some (Normal ret) =>
      present "id" fields = false -> sent (snd r) = sent w
  end.
Proof.
  intros Hm Ht r id. subst r id.
  rewrite dispatch_request, (handle_request_registered method) by trivial.
  fold (reply_id fields).
  destruct (applied method fields) as [[ret|error]|].
  - intros Hid. now rewrite Hid.
  - intros Hobj. rewrite Hobj. simpl. now rewrite (sent_reply _ _ t).
  - simpl. now rewrite (sent_reply _ _ t).
Qed.


End Inbound.

(** C1, as stated, fails: a frame for the pending identifier "0" with a
    non-null id, a non-null error and a non-null result fulfils the promise
    with the result, where the error path would have rejected it. *)
Lemma result_checked_before_error :
  is_nullish (field "id" result_and_error) = false /\
  is_nullish (field "error" result_and_error) = false /\
  pending_callbacks (this one_call) !! "0" = Some (call_finalize 0) /\
  heap one_call = [Pending] /\
  heap (snd (process_received (Encoding (VObj result_and_error)) one_call))
  = [Fulfilled (VNum 1)] /\
  heap (snd (error_path (call_finalize 0) rpc_error "0" one_call))
  = [Rejected rpc_error].
Proof. repeat split; vm_compute; reflexivity. Qed.

Lemma error_path_iff_result_null_witness :
  heap (snd (process_received (Encoding (VObj error_only)) one_call)) !! 0%nat
  = Some (Rejected rpc_error) /\
  heap (snd (process_received (Encoding (VObj result_and_error)) one_call)) !! 0%nat
  = Some (Fulfilled (VNum 1)).
Proof.
  split.
  - exact (proj2 (error_path_iff_result_null one_call error_only eq_refl
                    (call_finalize 0) eq_refl eq_refl eq_refl) 0%nat eq_refl eq_refl).
  - exact (proj2 (error_path_iff_result_null one_call result_and_error eq_refl
                    (call_finalize 0) eq_refl eq_refl eq_refl) 0%nat eq_refl eq_refl).
Defined.



(** C2, as stated, fails: [bad_notification] has no id, its params are a
    number, and the engine answers it with an error frame whose id is
    null. *)
Lemma notification_gets_error_frame :
  present "id" bad_notification = false /\
  sent serving = [] /\
  process_received (Encoding (VObj bad_notification)) serving =
  (Normal tt,
   add_sent 7
     (Encoding
        (VObj [("jsonrpc", VStr "2.0");
               ("error", VObj [("message", VStr "Invalid Parameters");
                               ("code", VNum (-32602))]);
               ("id", VNull)]))
     (add_console
        [VStr "JSON-RPC Request Error: -32602 Invalid Parameters"; VObj bad_notification]
        serving)).
Proof. repeat split. Qed.

Lemma dispatch_error_is_sent_with_or_without_id_witness :
  sent (snd (process_received (Encoding (VObj bad_notification)) serving)) =
  sent serving ++
  [(7, JSON_stringify
         (error_frame (VStr "Invalid Parameters") (VNum (-32602)) VNull))].
Proof.
  exact (dispatch_error_is_sent_with_or_without_id serving bad_notification
           eq_refl eq_refl eq_refl eq_refl echo 7 eq_refl eq_refl).
Defined.

(** C7 at a callable that throws a string: the [in] test of the catch
    block throws in turn, the TypeError leaves [process_received] and no
    frame is sent, although a transport is bound and the request has an
    id. *)
Theorem thrown_string_is_not_answered :
  transport (this serving) = Some 7 /\
  present "id" (request_of "throws_string") = true /\
  methods (this serving) !! "throws_string" = Some throws_string /\
  process_received (Encoding (VObj (request_of "throws_string"))) serving =
  (Abrupt TypeError, serving).
Proof. repeat split. Qed.


(** ** Outbound calls *)

(** C10: without a transport both call methods return a promise rejected
    with the error "No Transport Initialized", send nothing and register
    nothing, and the identifier counter has advanced by one. *)
Theorem call_without_transport_consumes_identifier
    (w : world) (method_name kwargs : value) (args : list value) :
  transport (this w) = None ->
  let outcome (r : completion nat * world) :=
    fst r = Normal (length (heap w)) /\
    heap (snd r) = heap w ++ [Rejected (Error "No Transport Initialized")] /\
    pending_callbacks (this (snd r)) = pending_callbacks (this w) /\
    sent (snd r) = sent w /\
    id_counter (this (snd r)) = (id_counter (this w) + 1)%N in
  outcome (call_method method_name args w) /\
  outcome (call_method_with_kwargs method_name kwargs w).
Proof.
  intros Ht outcome. subst outcome.
  unfold call_method, call_method_with_kwargs, _create_uid, Promise_reject, allocate.
  step_monad. rewrite Ht. simpl. now repeat split.
Qed.

Lemma call_without_transport_consumes_identifier_witness :
  heap (snd (call_method (VStr "printer.info") [] fresh_world)) =
  [Rejected (Error "No Transport Initialized")] /\
  id_counter (this (snd (call_method (VStr "printer.info") [] fresh_world))) = 1%N.
Proof.
  pose proof (call_without_transport_consumes_identifier fresh_world
                (VStr "printer.info") VNull [] eq_refl) as [(_ & Hh & _ & _ & Hc) _].
  split; [exact Hh | exact Hc].
Defined.





(** ** Batches *)

(** C3, as stated, fails: when the error for the first request of the
    batch is delivered before the error for the last one, the aggregate is
    rejected with the payload of the first request. *)
Lemma first_rejection_wins :
  heap (deliver [error_to "0" rpc_error; error_to "1" (VStr "busy")] (batch_sent 7)) !! 2
  = Some (Rejected (item_error "a" 0 rpc_error)).
Proof. reflexivity. Qed.

Ltac payloads :=
  repeat match goal with
    | H : is_nullish ?v = false |- _ => destruct v; try discriminate H; clear H
    end;
  vm_compute; reflexivity.

(** C3, amended: on a constructed engine bound to a transport, the batch
    is sent as one frame of three entries, with identifiers on entries 0
    and 2 only and two promises for the aggregate to wait on; the
    aggregate promise stays pending until both responses have been
    delivered and is then fulfilled with both results, in either order of
    delivery; an error for entry 2 rejects it with the payload of entry 2
    unless an error for entry 0 was delivered first, in which case it is
    already rejected with the payload of entry 0. *)
Theorem batch_aggregate_of_a_b_c (t : nat) (r0 r2 e0 e2 : value) :
  is_nullish r0 = false ->
  is_nullish r2 = false ->
  is_nullish e0 = false ->
  is_nullish e2 = false ->
  let aggregate (texts : list text) := heap (deliver texts (batch_sent t)) !! 2 in
  send_batch_request abc_batch (snd (register_transport t fresh_world))
  = (Normal 2, batch_sent t) /\
  sent (batch_sent t) =
  [(t, Encoding
         (VArr [VObj [("jsonrpc", VStr "2.0"); ("method", VStr "a"); ("id", VStr "0")];
                VObj [("jsonrpc", VStr "2.0"); ("method", VStr "b")];
                VObj [("jsonrpc", VStr "2.0"); ("method", VStr "c"); ("id", VStr "1")]]))] /\
  map_to_list (pending_callbacks (this (batch_sent t))) ≡ₚ
  [("0", batch_finalize 0 (VStr "a") 0); ("1", batch_finalize 1 (VStr "c") 2)] /\
  combinators (batch_sent t) = [mk_all 2 [0; 1]%nat] /\
  aggregate [] = Some Pending /\
  aggregate [response_to "0" r0] = Some Pending /\
  aggregate [response_to "1" r2] = Some Pending /\
  aggregate [response_to "0" r0; response_to "1" r2]
  = Some (Fulfilled (VArr [item_result "a" 0 r0; item_result "c" 2 r2])) /\
  aggregate [response_to "1" r2; response_to "0" r0]
  = Some (Fulfilled (VArr [item_result "a" 0 r0; item_result "c" 2 r2])) /\
  aggregate [error_to "1" e2] = Some (Rejected (item_error "c" 2 e2)) /\
  aggregate [response_to "0" r0; error_to "1" e2] = Some (Rejected (item_error "c" 2 e2)) /\
  aggregate [error_to "1" e2; response_to "0" r0] = Some (Rejected (item_error "c" 2 e2)) /\
  aggregate [error_to "1" e2; error_to "0" e0] = Some (Rejected (item_error "c" 2 e2)) /\
  aggregate [error_to "0" e0; error_to "1" e2] = Some (Rejected (item_error "a" 0 e0)).
Proof.
  intros Hr0 Hr2 He0 He2 aggregate. subst aggregate.
  split; [reflexivity|]. split; [reflexivity|].
  split; [vm_compute; apply Permutation_swap|].
  split; [reflexivity|]. split; [reflexivity|].
  split; [clear Hr2 He0 He2; payloads|].
  split; [clear Hr0 He0 He2; payloads|].
  split; [clear He0 He2; payloads|].
  split; [clear He0 He2; payloads|].
  split; [clear Hr0 Hr2 He0; payloads|].
  split; [clear Hr2 He0; payloads|].
  split; [clear Hr2 He0; payloads|].
  split; [clear Hr0 Hr2; payloads|].
  clear Hr0 Hr2; payloads.
Qed.

Lemma batch_aggregate_of_a_b_c_witness :
  heap (deliver [response_to "1" (VStr "ok"); response_to "0" (VNum 5)] (batch_sent 7)) !! 2
  = Some (Fulfilled (VArr [item_result "a" 0 (VNum 5); item_result "c" 2 (VStr "ok")])) /\
  heap (deliver [response_to "0" (VNum 5); error_to "1" rpc_error] (batch_sent 7)) !! 2
  = Some (Rejected (item_error "c" 2 rpc_error)).
Proof.
  pose proof (batch_aggregate_of_a_b_c 7 (VNum 5) (VStr "ok") rpc_error rpc_error
                eq_refl eq_refl eq_refl eq_refl)
    as (_ & _ & _ & _ & _ & _ & _ & _ & Hboth & _ & Herr & _).
  split; [exact Hboth | exact Herr].
Defined.

(** ** What leaves a pending entry in place *)

Lemma handle_request_this fields w :
  this (snd (_handle_request (VObj fields) w)) = this w.
Proof.
  destruct (methods (this w) !! ToPropertyKey (field "method" fields)) as [method|] eqn:Hm.
  - rewrite (handle_request_registered w fields method Hm).
    destruct (applied method fields) as [[ret|error]|]; simpl.
    + destruct (present "id" fields); simpl; [apply this_reply | reflexivity].
    + destruct (instanceof_Object error); simpl; [now rewrite this_reply | reflexivity].
    + now rewrite this_reply.
  - unfold _handle_request. step_monad. unfold callable in *. now rewrite Hm.
Qed.

Lemma handle_response_keeps uid fields w :
  completes uid (VObj fields) = false ->
  pending_callbacks (this (snd (_handle_response (VObj fields) w))) !! uid =
  pending_callbacks (this w) !! uid.
Proof.
  intros Hc. unfold completes in Hc.
  destruct (pending_callbacks (this w) !! ToPropertyKey (field "id" fields))
    as [f|] eqn:Hf.
  - destruct (negb (is_nullish (field "result" fields))
              && negb (is_nullish (field "id" fields))) eqn:Hres.
    + apply andb_true_iff in Hres as [Hr Hi]. apply negb_true_iff in Hr, Hi.
      rewrite (handle_response_result w fields f) by trivial.
      destruct (completion_effects f (field "result" fields) VUndef
                  (ToPropertyKey (field "id" fields)) w) as [h Hh].
      unfold result_path. rewrite Hh. simpl.
      simpl in Hc. rewrite andb_true_r in Hc.
      apply String.eqb_neq in Hc. now rewrite lookup_delete_ne.
    + destruct (is_nullish (field "error" fields)) eqn:Herr.
      * now rewrite handle_response_invalid.
      * rewrite (handle_response_error w fields f) by trivial.
        destruct (completion_effects f VNull (field "error" fields)
                    (ToPropertyKey (field "id" fields)) w) as [h Hh].
        unfold error_path. rewrite Hh. simpl.
        simpl in Hc. rewrite andb_true_r in Hc.
        apply String.eqb_neq in Hc. now rewrite lookup_delete_ne.
  - destruct (handle_response_orphan w fields Hf) as (message & detail & He).
    now rewrite He.
Qed.

Lemma dispatch_keeps uid frame w :
  completes uid frame = false ->
  pending_callbacks (this (snd (_validate_and_dispatch frame w))) !! uid =
  pending_callbacks (this w) !! uid.
Proof.
  intros Hc.
  destruct frame as [| | b | z | s | items | fields | name message];
    try reflexivity.
  unfold _validate_and_dispatch. step_monad.
  destruct (loose_eq (field "jsonrpc" fields) Lit_2_0); simpl; [|reflexivity].
  destruct (present "result" fields); simpl;
    [now apply handle_response_keeps|].
  destruct (present "error" fields); simpl;
    [now apply handle_response_keeps|].
  destruct (present "method" fields); simpl; [|reflexivity].
  now rewrite handle_request_this.
Qed.

Lemma for_of_keeps uid items : forall w,
  Forall (fun frame => completes uid frame = false) items ->
  pending_callbacks (this (snd (for_of items w))) !! uid =
  pending_callbacks (this w) !! uid.
Proof.
  induction items as [|frame rest IH]; intros w Hall; [reflexivity|].
  inversion Hall as [|? ? Hframe Hrest]; subst.
  simpl. unfold bind.
  pose proof (dispatch_keeps uid frame w Hframe) as Hstep.
  destruct (_validate_and_dispatch frame w) as [[[]|thrown] w1]; simpl in *.
  - now rewrite IH.
  - exact Hstep.
Qed.

Lemma process_received_keeps uid data w :
  Forall (fun frame => completes uid frame = false) (frames data) ->
  pending_callbacks (this (snd (process_received data w))) !! uid =
  pending_callbacks (this w) !! uid.
Proof.
  destruct data as [|v]; [reflexivity|].
  destruct v as [| | b | z | s | items | fields | name message]; simpl frames;
    intros Hall;
    try (inversion Hall; subst; now apply dispatch_keeps).
  now apply for_of_keeps.
Qed.

Lemma deliver_keeps uid texts : forall w,
  Forall (fun data => Forall (fun frame => completes uid frame = false) (frames data))
    texts ->
  pending_callbacks (this (deliver texts w)) !! uid = pending_callbacks (this w) !! uid.
Proof.
  induction texts as [|data rest IH]; intros w Hall; [reflexivity|].
  inversion Hall as [|? ? Hdata Hrest]; subst.
  simpl. change (fold_left _ rest ?w') with (deliver rest w').
  rewrite IH by trivial. now apply process_received_keeps.
Qed.

(** C9: a response whose result is present and null, and which carries no
    error, is written to the console as an invalid response and changes
    nothing else: no promise is settled, the pending entries stay, nothing
    is sent. An entry stays registered through any later inbound traffic
    that brings no non-null result or error for its identifier. *)
Theorem null_result_response_is_only_logged
    (w : world) (fields : list (string * value)) :
  loose_eq (field "jsonrpc" fields) Lit_2_0 = true ->
  assoc "result" fields = Some VNull ->
  is_nullish (field "error" fields) = true ->
  let r := process_received (Encoding (VObj fields)) w in
  fst r = Normal tt /\
  heap (snd r) = heap w /\
  this (snd r) = this w /\
  sent (snd r) = sent w /\
  console (snd r) = console w ++ [VStr "Invalid JSON-RPC response"; VObj fields] /\
  forall (uid : string) (f : callback) (later : list text),
    pending_callbacks (this w) !! uid = Some f ->
    Forall (fun data => Forall (fun frame => completes uid frame = false) (frames data))
      later ->
    pending_callbacks (this (deliver later (snd r))) !! uid = Some f.
Proof.
  intros Htag Hres Herr r.
  assert (Hr : r = (Normal tt,
                    add_console [VStr "Invalid JSON-RPC response"; VObj fields] w)).
  { subst r. rewrite dispatch_response; trivial.
    - apply handle_response_invalid; trivial.
      unfold field. now rewrite Hres.
    - unfold present. now rewrite Hres. }
  rewrite Hr. simpl. repeat split.
  intros uid f later Hf Hlater. now rewrite deliver_keeps.
Qed.

Lemma null_result_response_is_only_logged_witness :
  heap (snd (process_received (Encoding (VObj null_result)) one_call)) = heap one_call /\
  this (snd (process_received (Encoding (VObj null_result)) one_call)) = this one_call /\
  pending_callbacks
    (this (deliver [Encoding (VObj null_result)]
             (snd (process_received (Encoding (VObj null_result)) one_call)))) !! "0"
  = Some (call_finalize 0).
Proof.
  pose proof (null_result_response_is_only_logged one_call null_result
                eq_refl eq_refl eq_refl) as (_ & Hh & Ht & _ & _ & Hkeep).
  split; [exact Hh|]. split; [exact Ht|].
  apply Hkeep; [reflexivity|].
  repeat constructor.
Defined.

(** ** The counter across all operations *)

Lemma perform_draws_uid c w :
  perform c w = (do uid <- _create_uid; send_request (request_of_call c uid) uid) w.
Proof. now destruct c. Qed.

Lemma create_uid_spec w :
  _create_uid w =
  (Normal (ToString (VNum (Z.of_N (id_counter (this w))))),
   set_this (set_id_counter (id_counter (this w) + 1) (this w)) w).
Proof. reflexivity. Qed.










(** ** Identifiers *)


Lemma parse_uid_ToString z : parse_uid (ToString (VNum z)) = Some z.
Proof.
  unfold parse_uid. simpl. rewrite NilZero.isi.
  - simpl. now rewrite DecimalZ.of_to.
  - destruct z; simpl; try discriminate.
    intros [= H]. now apply DecimalPos.Unsigned.to_uint_nonnil in H.
  - destruct z; simpl; try discriminate.
    intros [= H]. now apply DecimalPos.Unsigned.to_uint_nonnil in H.
Qed.








(** * Further properties of the engine *)

(** ** Frames that are dropped *)

(** A frame without the protocol tag is written to the console and
    otherwise ignored, whatever it is: a number, a string, an object with
    another tag. Only [null] throws. *)
Theorem untagged_frame_is_only_logged (w : world) (rpc_data : value) :
  untagged rpc_data = true ->
  instanceof_Array rpc_data = false ->
  process_received (Encoding rpc_data) w =
  (Normal tt, add_console [VStr "Invalid JSON-RPC data"; rpc_data] w).
Proof.
  intros Htag Harr. unfold process_received, untagged in *. step_monad.
  rewrite Harr. unfold _validate_and_dispatch. step_monad.
  destruct (get rpc_data "jsonrpc") as [tag|]; [|discriminate].
  simpl. rewrite Htag. simpl. now rewrite add_console_app.
Qed.

Lemma untagged_frame_is_only_logged_witness :
  process_received (Encoding (VNum 5)) one_call =
  (Normal tt, add_console [VStr "Invalid JSON-RPC data"; VNum 5] one_call) /\
  process_received
    (Encoding (VObj [("jsonrpc", VStr "1.0"); ("result", VNum 1); ("id", VStr "0")]))
    one_call =
  (Normal tt,
   add_console
     [VStr "Invalid JSON-RPC data";
      VObj [("jsonrpc", VStr "1.0"); ("result", VNum 1); ("id", VStr "0")]]
     one_call).
Proof.
  split.
  - exact (untagged_frame_is_only_logged one_call (VNum 5) eq_refl eq_refl).
  - exact (untagged_frame_is_only_logged one_call
             (VObj [("jsonrpc", VStr "1.0"); ("result", VNum 1); ("id", VStr "0")])
             eq_refl eq_refl).
Defined.

(** A tagged frame that has neither a result, an error nor a method is
    written to the console and otherwise ignored. *)
Theorem shapeless_frame_is_only_logged (w : world) (fields : list (string * value)) :
  loose_eq (field "jsonrpc" fields) Lit_2_0 = true ->
  present "result" fields = false ->
  present "error" fields = false ->
  present "method" fields = false ->
  process_received (Encoding (VObj fields)) w =
  (Normal tt, add_console [VStr "Invalid JSON-RPC data"; VObj fields] w).
Proof.
  intros Htag Hres Herr Hmeth.
  change (_validate_and_dispatch (VObj fields) w =
          (Normal tt, add_console [VStr "Invalid JSON-RPC data"; VObj fields] w)).
  unfold _validate_and_dispatch. step_monad.
  rewrite Htag, Hres. simpl. rewrite Herr. simpl. rewrite Hmeth. simpl.
  now rewrite add_console_app.
Qed.

Lemma shapeless_frame_is_only_logged_witness :
  process_received (Encoding (VObj [("jsonrpc", VStr "2.0"); ("id", VStr "0")])) one_call =
  (Normal tt,
   add_console
     [VStr "Invalid JSON-RPC data"; VObj [("jsonrpc", VStr "2.0"); ("id", VStr "0")]]
     one_call).
Proof.
  exact (shapeless_frame_is_only_logged one_call
           [("jsonrpc", VStr "2.0"); ("id", VStr "0")] eq_refl eq_refl eq_refl eq_refl).
Defined.

(** ** Batch arrays *)

Lemma for_of_app items1 : forall items2 w,
  fst (for_of items1 w) = Normal tt ->
  for_of (items1 ++ items2) w = for_of items2 (snd (for_of items1 w)).
Proof.
  induction items1 as [|frame rest IH]; intros items2 w Hok; [reflexivity|].
  simpl in *. unfold bind in *.
  destruct (_validate_and_dispatch frame w) as [[[]|thrown] w1]; simpl in *;
    [now apply IH | discriminate].
Qed.

(** The elements of an inbound array are processed in order until one
    throws: a [null] element ends the processing with a TypeError, and the
    elements after it are never looked at. *)
Theorem batch_array_stops_at_null (w : world) (before after : list value) :
  fst (process_received (Encoding (VArr before)) w) = Normal tt ->
  process_received (Encoding (VArr (before ++ VNull :: after))) w =
  (Abrupt TypeError, snd (process_received (Encoding (VArr before)) w)).
Proof.
  intros Hok.
  change (for_of (before ++ VNull :: after) w = (Abrupt TypeError, snd (for_of before w))).
  now rewrite for_of_app.
Qed.

Lemma batch_array_stops_at_null_witness :
  process_received
    (Encoding (VArr [VObj null_result; VNull; VObj error_only])) one_call =
  (Abrupt TypeError,
   snd (process_received (Encoding (VArr [VObj null_result])) one_call)) /\
  heap (snd (process_received
               (Encoding (VArr [VObj null_result; VNull; VObj error_only])) one_call))
  = [Pending].
Proof.
  split; [|reflexivity].
  exact (batch_array_stops_at_null one_call [VObj null_result] [VObj error_only] eq_refl).
Defined.

(** ** What each operation leaves alone *)

Lemma heap_grows_refl h : heap_grows h h.
Proof. split; auto. Qed.

Lemma heap_grows_trans h1 h2 h3 :
  heap_grows h1 h2 -> heap_grows h2 h3 -> heap_grows h1 h3.
Proof. intros [Hl1 Hk1] [Hl2 Hk2]. split; [lia | eauto]. Qed.

Lemma heap_grows_app h l : heap_grows h (h ++ l).
Proof.
  split; [rewrite length_app; lia|].
  intros q s Hq _. now apply lookup_app_l_Some.
Qed.

Lemma settle_in_grows q st h : heap_grows h (settle_in q st h).
Proof.
  split.
  - unfold settle_in. destruct (h !! q) as [[| |]|]; trivial.
    now rewrite length_insert.
  - intros p s Hp Hs. now apply settle_in_settled.
Qed.

Lemma react_grows st h c : heap_grows h (react st h c).
Proof.
  destruct st; simpl; try apply heap_grows_refl.
  - destruct (fulfilled_values h (all_inputs c));
      [apply settle_in_grows | apply heap_grows_refl].
  - apply settle_in_grows.
Qed.

Lemma settle_grows p st w :
  exists h, settle p st w = (Normal tt, set_heap h w) /\ heap_grows (heap w) h.
Proof.
  unfold settle, modify.
  destruct (heap w !! p) as [[| |]|] eqn:Hp;
    try (exists (heap w); rewrite set_heap_same; split;
         [reflexivity | apply heap_grows_refl]).
  eexists. split; [reflexivity|].
  assert (Hfold : forall cs h, heap_grows (heap w) h ->
    heap_grows (heap w)
      (fold_left (fun h c => if existsb (Nat.eqb p) (all_inputs c) then react st h c else h)
         cs h)).
  { induction cs as [|c cs IH]; intros h Hh; [exact Hh|].
    simpl. apply IH. destruct (existsb (Nat.eqb p) (all_inputs c)); trivial.
    eapply heap_grows_trans; [exact Hh | apply react_grows]. }
  apply Hfold. split; [now rewrite length_insert|].
  intros q s Hq Hs. rewrite list_lookup_insert_ne; trivial.
  intros ->. congruence.
Qed.

Lemma invoke_grows f result error w :
  exists h, invoke f result error w = (Normal tt, set_heap h w) /\
            heap_grows (heap w) h.
Proof.
  destruct f; simpl; destruct (negb (is_nullish error)); apply settle_grows.
Qed.

Lemma received_refl w : received w w.
Proof.
  repeat split; auto; try apply heap_grows_refl; exists []; now rewrite app_nil_r.
Qed.

Lemma received_trans w1 w2 w3 : received w1 w2 -> received w2 w3 -> received w1 w3.
Proof.
  intros (Hm1 & Ht1 & Hc1 & Hp1 & Hh1 & Hk1 & Ho1 & [s1 Hs1] & [e1 He1])
         (Hm2 & Ht2 & Hc2 & Hp2 & Hh2 & Hk2 & Ho2 & [s2 Hs2] & [e2 He2]).
  repeat split; try congruence; auto.
  - apply (heap_grows_trans _ _ _ Hh1 Hh2).
  - apply (heap_grows_trans _ _ _ Hh1 Hh2).
  - exists (s1 ++ s2). now rewrite Hs2, Hs1, app_assoc.
  - exists (e1 ++ e2). now rewrite He2, He1, app_assoc.
Qed.

Lemma received_console entries w : received w (add_console entries w).
Proof.
  repeat split; auto; try apply heap_grows_refl;
    [exists []; now rewrite app_nil_r | now exists entries].
Qed.

Lemma received_reply data w : received w (reply data w).
Proof.
  unfold reply. destruct (transport (this w)) as [t|]; [|apply received_refl].
  repeat split; auto; try apply heap_grows_refl;
    [now exists [(t, data)] | exists []; now rewrite app_nil_r].
Qed.

Lemma handle_response_received fields w :
  fst (_handle_response (VObj fields) w) = Normal tt /\
  received w (snd (_handle_response (VObj fields) w)).
Proof.
  assert (Hdone : forall f result error uid,
    fst ((exec invoke f result error; delete_pending uid) w) = Normal tt /\
    received w (snd ((exec invoke f result error; delete_pending uid) w))).
  { intros f result error uid.
    destruct (invoke_grows f result error w) as (h & Hh & Hg).
    unfold bind. rewrite Hh. unfold delete_pending, modify. simpl.
    split; [reflexivity|].
    repeat split; auto; try apply Hg.
    - intros k g Hk. simpl in Hk. now apply lookup_delete_Some in Hk.
    - exists []. now rewrite app_nil_r.
    - exists []. now rewrite app_nil_r. }
  destruct (pending_callbacks (this w) !! ToPropertyKey (field "id" fields))
    as [f|] eqn:Hf.
  - destruct (negb (is_nullish (field "result" fields))
              && negb (is_nullish (field "id" fields))) eqn:Hres.
    + apply andb_true_iff in Hres as [Hr Hi]. apply negb_true_iff in Hr, Hi.
      rewrite (handle_response_result w fields f) by trivial. apply Hdone.
    + destruct (is_nullish (field "error" fields)) eqn:Herr.
      * rewrite handle_response_invalid by trivial.
        split; [reflexivity | apply received_console].
      * rewrite (handle_response_error w fields f) by trivial. apply Hdone.
  - destruct (handle_response_orphan w fields Hf) as (message & detail & He).
    rewrite He. split; [reflexivity | apply received_console].
Qed.

Lemma handle_request_received fields w :
  received w (snd (_handle_request (VObj fields) w)).
Proof.
  destruct (methods (this w) !! ToPropertyKey (field "method" fields)) as [method|] eqn:Hm.
  - rewrite (handle_request_registered w fields method Hm).
    destruct (applied method fields) as [[ret|error]|]; simpl.
    + destruct (present "id" fields); simpl;
        [apply received_reply | apply received_refl].
    + destruct (instanceof_Object error); simpl; [|apply received_refl].
      eapply received_trans; [apply received_console | apply received_reply].
    + eapply received_trans; [apply received_console | apply received_reply].
  - unfold _handle_request. step_monad. unfold callable in *. rewrite Hm.
    apply received_console.
Qed.

Lemma dispatch_received frame w : received w (snd (_validate_and_dispatch frame w)).
Proof.
  destruct frame as [| | b | z | s | items | fields | name message];
    try apply received_refl;
    try (unfold _validate_and_dispatch; step_monad; rewrite add_console_app;
         apply received_console).
  unfold _validate_and_dispatch. step_monad.
  destruct (loose_eq (field "jsonrpc" fields) Lit_2_0); simpl;
    [|rewrite add_console_app; apply received_console].
  destruct (present "result" fields); simpl; [apply handle_response_received|].
  destruct (present "error" fields); simpl; [apply handle_response_received|].
  destruct (present "method" fields); simpl;
    [apply handle_request_received | rewrite add_console_app; apply received_console].
Qed.

Lemma for_of_received items : forall w, received w (snd (for_of items w)).
Proof.
  induction items as [|frame rest IH]; intros w; [apply received_refl|].
  simpl. unfold bind.
  pose proof (dispatch_received frame w) as Hstep.
  destruct (_validate_and_dispatch frame w) as [[[]|thrown] w1]; simpl in *;
    [eapply received_trans; [exact Hstep | apply IH] | exact Hstep].
Qed.

Lemma process_received_footprint data w : received w (snd (process_received data w)).
Proof.
  destruct data as [|v]; [apply received_refl|].
  destruct v as [| | b | z | s | items | fields | name message];
    try apply (dispatch_received _ w).
  apply for_of_received.
Qed.

(** ** Invariants over all operations *)

Lemma numeral_inj n m : numeral n = numeral m -> n = m.
Proof.
  intros H. apply (f_equal parse_uid) in H. unfold numeral in H.
  rewrite !parse_uid_ToString in H. injection H. lia.
Qed.

Ltac issued_parts :=
  unfold issued;
  refine (conj _ (conj _ (conj _ (conj _ (conj _ (conj _ (conj _ (conj _ _))))))));
  simpl; trivial; try lia; try congruence.

Lemma issued_refl w : issued w w.
Proof.
  issued_parts; auto.
  - exists []. now rewrite app_nil_r.
  - exists []. split; [now rewrite app_nil_r | trivial].
Qed.

Lemma issued_trans w1 w2 w3 : issued w1 w2 -> issued w2 w3 -> issued w1 w3.
Proof.
  intros (Hm1 & Ht1 & Ho1 & Hl1 & Hc1 & Hn1 & Hk1 & [h1 Hh1] & [s1 [Hs1 Hq1]])
         (Hm2 & Ht2 & Ho2 & Hl2 & Hc2 & Hn2 & Hk2 & [h2 Hh2] & [s2 [Hs2 Hq2]]).
  issued_parts.
  - intros uid f Hf. apply Hn2 in Hf as [Hf|(n & Hn & ->)].
    + apply Hn1 in Hf as [Hf|(n & Hn & ->)]; [now left|].
      right. exists n. split; [lia | reflexivity].
    + right. exists n. split; [lia | reflexivity].
  - intros n Hn. rewrite Hk2 by lia. now apply Hk1.
  - exists (h1 ++ h2). now rewrite Hh2, Hh1, app_assoc.
  - exists (s1 ++ s2). split; [now rewrite Hs2, Hs1, app_assoc|].
    intros Hnone. rewrite Hq1, Hq2; trivial. congruence.
Qed.

(** Drawing an identifier and registering a completion under it. *)
Lemma issued_registration w f created :
  issued w
    (set_this
       (set_pending_callbacks
          (<[numeral (id_counter (this w)) := f]> (pending_callbacks (this w)))
          (set_id_counter (id_counter (this w) + 1) (this w)))
       (set_heap (heap w ++ created) w)).
Proof.
  unfold set_this, set_heap. issued_parts.
  - intros uid g Hg. destruct (decide (uid = numeral (id_counter (this w)))) as [->|Hne].
    + right. exists (id_counter (this w)). split; [lia | reflexivity].
    + left. now rewrite lookup_insert_ne in Hg.
  - intros n Hn. rewrite lookup_insert_ne; trivial.
    intros Heq. apply numeral_inj in Heq. lia.
  - now exists created.
  - exists []. split; [now rewrite app_nil_r | trivial].
Qed.

Lemma issued_draw w created :
  issued w
    (set_this (set_id_counter (id_counter (this w) + 1) (this w))
       (set_heap (heap w ++ created) w)).
Proof.
  unfold set_this, set_heap. issued_parts; auto.
  - now exists created.
  - exists []. split; [now rewrite app_nil_r | trivial].
Qed.

Lemma issued_send w t data :
  transport (this w) = Some t -> issued w (add_sent t data w).
Proof.
  intros Ht. unfold add_sent. issued_parts; auto.
  - exists []. now rewrite app_nil_r.
  - exists [(t, data)]. split; [reflexivity | congruence].
Qed.

Lemma issued_allocate w created : issued w (set_heap (heap w ++ created) w).
Proof.
  unfold set_heap. issued_parts; auto.
  - now exists created.
  - exists []. split; [now rewrite app_nil_r | trivial].
Qed.

Lemma batch_forEach_issued requests : forall idx batch_request promises w,
  issued w (snd (batch_forEach requests idx batch_request promises w)).
Proof.
  induction requests as [|request rest IH]; intros idx batch_request promises w;
    [apply issued_refl|].
  cbn [batch_forEach]. unfold new_Promise, allocate, _create_uid. step_monad.
  destruct (get request "method") as [name|]; simpl; [|apply issued_refl].
  destruct (has "params" request) as [[|]|]; simpl; [| |apply issued_refl].
  - destruct (get request "params") as [params|]; simpl; [|apply issued_refl].
    destruct (instanceof_Object params); simpl;
      (destruct (get request "type") as [type|]; simpl; [|apply issued_refl]);
      destruct (loose_eq type Lit_request); simpl;
      try (destruct (spread params) as [args|]; simpl);
      try apply issued_refl;
      try (eapply issued_trans; [|apply IH]);
      try apply issued_refl;
      apply (issued_registration w _ [Pending]).
  - destruct (get request "type") as [type|]; simpl; [|apply issued_refl].
    destruct (loose_eq type Lit_request); simpl;
      (eapply issued_trans; [|apply IH]);
      [apply (issued_registration w _ [Pending]) | apply issued_refl].
Qed.

(** The world a successful call leaves, and the one a call without
    transport leaves. *)
Lemma issued_call w f created frames combined :
  (transport (this w) = None -> frames = []) ->
  issued w
    {| this := {| id_counter := id_counter (this w) + 1;
                  methods := methods (this w);
                  pending_callbacks :=
                    <[numeral (id_counter (this w)) := f]> (pending_callbacks (this w));
                  transport := transport (this w) |};
       heap := heap w ++ created;
       combinators := combined;
       onmessage := onmessage w;
       sent := sent w ++ frames;
       console := console w |}.
Proof.
  intros Hframes. issued_parts.
  - intros uid g Hg. destruct (decide (uid = numeral (id_counter (this w)))) as [->|Hne].
    + right. exists (id_counter (this w)). split; [lia | reflexivity].
    + left. now rewrite lookup_insert_ne in Hg.
  - intros n Hn. rewrite lookup_insert_ne; trivial.
    intros Heq. apply numeral_inj in Heq. lia.
  - now exists created.
  - now exists frames.
Qed.

Lemma perform_issued c w : issued w (snd (perform c w)).
Proof.
  rewrite perform_draws_uid. unfold bind. rewrite create_uid_spec.
  unfold send_request, new_Promise, Promise_reject, allocate. step_monad.
  destruct (transport (this w)) as [t|] eqn:Ht; simpl.
  - apply (issued_call w (call_finalize (length (heap w))) [Pending]
             [(t, JSON_stringify
                    (request_of_call c (numeral (id_counter (this w)))))]).
    congruence.
  - apply (issued_draw w [Rejected (Error "No Transport Initialized")]).
Qed.

Lemma notify_issued method_name args w : issued w (snd (notify method_name args w)).
Proof.
  unfold notify. step_monad.
  destruct (transport (this w)) as [t|] eqn:Ht; simpl;
    [now apply issued_send | apply issued_refl].
Qed.

Lemma send_batch_issued requests w : issued w (snd (send_batch_request requests w)).
Proof.
  unfold send_batch_request, Promise_reject, Promise_all, allocate. step_monad.
  destruct (transport (this w)) as [t|] eqn:Htr; simpl;
    [|apply (issued_allocate w [Rejected (Error "No Transport Initialized")])].
  pose proof (batch_forEach_issued requests 0 [] [] w) as Hbatch.
  destruct (batch_forEach requests 0 [] [] w) as [[[batch_request promises]|thrown] w1];
    simpl in *; [|exact Hbatch].
  eapply issued_trans; [exact Hbatch|].
  assert (Ht1 : transport (this w1) = Some t) by (destruct Hbatch as (_ & -> & _); exact Htr).
  eapply issued_trans; [apply (issued_send w1 t); exact Ht1|].
  match goal with
  | |- issued ?a {| heap := heap _ ++ ?created |} =>
      unfold issued; simpl
  end.
  unfold add_sent; simpl.
  refine (conj _ (conj _ (conj _ (conj _ (conj _ (conj _ (conj _ (conj _ _))))))));
    trivial; try lia; auto.
  - eexists; reflexivity.
  - exists []. split; [now rewrite app_nil_r | trivial].
Qed.

(** What each operation does to the promises, the dispatch table and the
    transport. *)
Lemma step_footprint e w :
  heap_grows (heap w) (heap (step e w)) /\
  match e with
  | Register_method _ _ => True
  | _ => methods (this (step e w)) = methods (this w)
  end /\
  match e with
  | Register_transport _ => True
  | _ => transport (this (step e w)) = transport (this w) /\
         onmessage (step e w) = onmessage w
  end.
Proof.
  assert (Hout : forall w', issued w w' ->
    heap_grows (heap w) (heap w') /\ methods (this w') = methods (this w) /\
    transport (this w') = transport (this w) /\ onmessage w' = onmessage w).
  { intros w' (Hm & Ht & Ho & _ & _ & _ & _ & [created Hh] & _).
    rewrite Hh. split; [apply heap_grows_app | auto]. }
  destruct e as [c | method_name args | requests | data | method_name method | t];
    simpl.
  - apply Hout, perform_issued.
  - apply Hout, notify_issued.
  - apply Hout, send_batch_issued.
  - destruct (process_received_footprint data w) as (Hm & Ht & _ & _ & Hh & _ & Ho & _).
    split; [apply Hh | auto].
  - split; [apply heap_grows_refl | now split].
  - split; [apply heap_grows_refl | now split].
Qed.
(** ** Sequences of operations *)

Lemma run_heap_grows es : forall w, heap_grows (heap w) (heap (run es w)).
Proof.
  induction es as [|e rest IH]; intros w; [apply heap_grows_refl|].
  eapply heap_grows_trans; [apply (step_footprint e w) | apply IH].
Qed.

(** Once a promise returned by the engine is fulfilled or rejected, no
    later operation of the engine and no later inbound data changes its
    state or its value. *)
Theorem settled_promise_is_final
    (es : list event) (w : world) (p : nat) (s : promise_state) :
  heap w !! p = Some s ->
  s <> Pending ->
  heap (run es w) !! p = Some s.
Proof.
  intros Hp Hs. now apply (run_heap_grows es w).
Qed.

Lemma settled_promise_is_final_witness :
  heap (run [Receive (response_to "0" (VNum 1))] one_call) !! 0%nat
  = Some (Fulfilled (VNum 1)) /\
  heap (run [Receive (error_to "0" rpc_error); Invoke (Call (VStr "printer.info") []);
             Receive (response_to "0" (VNum 2))]
          (run [Receive (response_to "0" (VNum 1))] one_call)) !! 0%nat
  = Some (Fulfilled (VNum 1)).
Proof.
  split; [reflexivity|].
  apply (settled_promise_is_final _ (run [Receive (response_to "0" (VNum 1))] one_call)
           0%nat (Fulfilled (VNum 1))); [reflexivity | discriminate].
Defined.

(** The transport the engine sends on is the one registered last, and
    every transport ever registered keeps the engine as its [onmessage]
    handler: no other operation binds, unbinds or replaces a transport. *)
Theorem transport_is_the_last_registered (es : list event) (w : world) :
  transport (this (run es w)) =
    match last (transports es) with
    | Some t => Some t
    | None => transport (this w)
    end /\
  onmessage (run es w) = onmessage w ++ transports es.
Proof.
  revert w. induction es as [|e rest IH]; intros w;
    [split; [reflexivity | now rewrite app_nil_r]|].
  destruct (IH (step e w)) as [Ht Ho]. change (run (e :: rest) w) with (run rest (step e w)).
  rewrite Ht, Ho.
  pose proof (step_footprint e w) as (_ & _ & Hstep).
  destruct e as [c | method_name args | requests | data | method_name method | t];
    [destruct Hstep as [-> ->]; split; reflexivity .. |].
  cbn [transports]. rewrite last_cons. simpl.
  split; [now destruct (last (transports rest)) | now rewrite <- app_assoc].
Qed.

Lemma run_methods k es : forall w,
  existsb (registers k) es = false ->
  methods (this (run es w)) !! k = methods (this w) !! k.
Proof.
  induction es as [|e rest IH]; intros w Hes; [reflexivity|].
  simpl in Hes. apply orb_false_iff in Hes as [He Hrest].
  change (run (e :: rest) w) with (run rest (step e w)). rewrite IH by trivial.
  pose proof (step_footprint e w) as (_ & Hstep & _).
  destruct e as [c | method_name args | requests | data | method_name method | t];
    try (now rewrite Hstep).
  simpl in *. apply String.eqb_neq in He. now rewrite lookup_insert_ne.
Qed.

(** A method registered under a name answers the requests that name it,
    whatever the engine does in between, as long as the name is not
    registered again: the name of the request and the registered name are
    compared by their property keys, and a request with an id whose
    callable returns gets one result frame with that id and the returned
    value. *)
Theorem registered_method_answers
    (w : world) (method_name : value) (method : callable) (es : list event)
    (fields : list (string * value)) (t : nat) (ret : value) :
  let w' := run es (step (Register_method method_name method) w) in
  existsb (registers (ToPropertyKey method_name)) es = false ->
  transport (this w') = Some t ->
  loose_eq (field "jsonrpc" fields) Lit_2_0 = true ->
  present "result" fields = false ->
  present "error" fields = false ->
  present "method" fields = true ->
  ToPropertyKey (field "method" fields) = ToPropertyKey method_name ->
  present "id" fields = true ->
  applied method fields = Some (Normal ret) ->
  process_received (Encoding (VObj fields)) w' =
  (Normal tt, add_sent t (JSON_stringify (result_frame ret (field "id" fields))) w').
Proof.
  intros w' Hes Ht Htag Hres Herr Hmeth Hkey Hid Happ.
  assert (Hm : methods (this w') !! ToPropertyKey (field "method" fields) = Some method).
  { subst w'. rewrite Hkey, run_methods by trivial. simpl. apply lookup_insert_eq. }
  rewrite dispatch_request, (handle_request_registered w' fields method Hm) by trivial.
  rewrite Happ, Hid. unfold reply. now rewrite Ht.
Qed.

Lemma registered_method_answers_witness :
  process_received
    (Encoding (VObj [("jsonrpc", VStr "2.0"); ("method", VStr "5");
                     ("params", VArr [VStr "hello"]); ("id", VNum 3)]))
    (run [Invoke (Call (VStr "printer.info") []);
          Register_method (VStr "echo") throws_error]
       (step (Register_method (VNum 5) echo) connected))
  = (Normal tt,
     add_sent 7 (JSON_stringify (result_frame (VStr "hello") (VNum 3)))
       (run [Invoke (Call (VStr "printer.info") []);
             Register_method (VStr "echo") throws_error]
          (step (Register_method (VNum 5) echo) connected))).
Proof.
  exact (registered_method_answers connected (VNum 5) echo
           [Invoke (Call (VStr "printer.info") []);
            Register_method (VStr "echo") throws_error]
           [("jsonrpc", VStr "2.0"); ("method", VStr "5");
            ("params", VArr [VStr "hello"]); ("id", VNum 3)]
           7 (VStr "hello")
           eq_refl eq_refl eq_refl eq_refl eq_refl eq_refl eq_refl eq_refl eq_refl).
Defined.

(** *** Identifiers of pending calls *)




(** *** Pending calls across operations *)





(** *** Before a transport is registered *)

Lemma add_console_nil w : add_console [] w = w.
Proof. destruct w. unfold add_console. simpl. now rewrite app_nil_r. Qed.

Lemma dispatch_idle frame w :
  transport (this w) = None ->
  pending_callbacks (this w) = ∅ ->
  exists entries, snd (_validate_and_dispatch frame w) = add_console entries w.
Proof.
  intros Ht Hp.
  assert (Hresp : forall fields,
    exists entries, snd (_handle_response (VObj fields) w) = add_console entries w).
  { intros fields.
    destruct (handle_response_orphan w fields) as (message & detail & He);
      [rewrite Hp; apply lookup_empty|].
    rewrite He. now eexists. }
  destruct frame as [| | b | z | s | items | fields | name message];
    try (exists []; now rewrite add_console_nil);
    try (unfold _validate_and_dispatch; step_monad; rewrite add_console_app;
         now eexists).
  unfold _validate_and_dispatch. step_monad.
  destruct (loose_eq (field "jsonrpc" fields) Lit_2_0); simpl;
    [|rewrite add_console_app; now eexists].
  destruct (present "result" fields); simpl; [apply Hresp|].
  destruct (present "error" fields); simpl; [apply Hresp|].
  destruct (present "method" fields); simpl;
    [|rewrite add_console_app; now eexists].
  destruct (methods (this w) !! ToPropertyKey (field "method" fields)) as [method|] eqn:Hm.
  - rewrite (handle_request_registered w fields method Hm). unfold reply.
    destruct (applied method fields) as [[ret|error]|]; simpl.
    + destruct (present "id" fields); simpl; rewrite ?Ht;
        exists []; now rewrite add_console_nil.
    + destruct (instanceof_Object error); simpl; rewrite ?Ht;
        [now eexists | exists []; now rewrite add_console_nil].
    + rewrite Ht. now eexists.
  - unfold _handle_request. step_monad. unfold callable in *. rewrite Hm.
    now eexists.
Qed.

Lemma for_of_idle items : forall w,
  transport (this w) = None ->
  pending_callbacks (this w) = ∅ ->
  exists entries, snd (for_of items w) = add_console entries w.
Proof.
  induction items as [|frame rest IH]; intros w Ht Hp;
    [exists []; now rewrite add_console_nil|].
  simpl. unfold bind.
  destruct (dispatch_idle frame w Ht Hp) as [entries He].
  destruct (_validate_and_dispatch frame w) as [[[]|thrown] w1]; simpl in *;
    [|now exists entries].
  subst w1. destruct (IH (add_console entries w) Ht Hp) as [more Hmore].
  rewrite Hmore, add_console_app. now eexists.
Qed.

Lemma process_received_idle data w :
  transport (this w) = None ->
  pending_callbacks (this w) = ∅ ->
  exists entries, snd (process_received data w) = add_console entries w.
Proof.
  intros Ht Hp. destruct data as [|v]; [exists []; now rewrite add_console_nil|].
  destruct v as [| | b | z | s | items | fields | name message];
    try apply (dispatch_idle _ w Ht Hp).
  now apply for_of_idle.
Qed.

(** Until a transport is registered, a constructed engine sends nothing
    and keeps nothing pending, whatever is called and whatever data is
    handed to it; every promise it returns is already rejected with the
    error "No Transport Initialized". *)
Theorem nothing_is_sent_before_a_transport_is_registered (es : list event) :
  transports es = [] ->
  let w := run es fresh_world in
  transport (this w) = None /\
  sent w = [] /\
  pending_callbacks (this w) = ∅ /\
  Forall (fun s => s = Rejected (Error "No Transport Initialized")) (heap w).
Proof.
  intros Hes.
  assert (Hrun : forall w,
    transport (this w) = None /\ sent w = [] /\ pending_callbacks (this w) = ∅ /\
    Forall (fun s => s = Rejected (Error "No Transport Initialized")) (heap w) ->
    transport (this (run es w)) = None /\ sent (run es w) = [] /\
    pending_callbacks (this (run es w)) = ∅ /\
    Forall (fun s => s = Rejected (Error "No Transport Initialized")) (heap (run es w))).
  { induction es as [|e rest IH]; intros w Hw; [exact Hw|].
    destruct Hw as (Ht & Hs & Hp & Hh).
    assert (Hrest : transports rest = []) by (destruct e; simpl in Hes; congruence).
    apply (IH Hrest (step e w)).
    destruct e as [c | method_name args | requests | data | method_name method | t];
      simpl; try discriminate Hes.
    - rewrite perform_draws_uid. unfold bind. rewrite create_uid_spec.
      unfold send_request, Promise_reject, allocate. step_monad. rewrite Ht. simpl.
      repeat split; trivial. apply Forall_app. split; [exact Hh | now constructor].
    - unfold notify. step_monad. rewrite Ht. simpl. now repeat split.
    - unfold send_batch_request, Promise_reject, allocate. step_monad. rewrite Ht. simpl.
      repeat split; trivial. apply Forall_app. split; [exact Hh | now constructor].
    - destruct (process_received_idle data w Ht Hp) as [entries ->].
      now repeat split.
    - now repeat split.  }
  apply Hrun. repeat split. constructor.
Qed.

Lemma nothing_is_sent_before_a_transport_is_registered_witness :
  sent (run [Invoke (Call (VStr "printer.info") []); Send_batch abc_batch;
             Register_method (VStr "echo") echo;
             Receive (Encoding (VObj [("jsonrpc", VStr "2.0"); ("method", VStr "echo");
                                      ("id", VNum 1)]));
             Receive (response_to "0" (VNum 5)); Notify (VStr "server.restart") []]
          fresh_world) = [] /\
  heap (run [Invoke (Call (VStr "printer.info") []); Send_batch abc_batch;
             Register_method (VStr "echo") echo;
             Receive (Encoding (VObj [("jsonrpc", VStr "2.0"); ("method", VStr "echo");
                                      ("id", VNum 1)]));
             Receive (response_to "0" (VNum 5)); Notify (VStr "server.restart") []]
          fresh_world) =
  [Rejected (Error "No Transport Initialized"); Rejected (Error "No Transport Initialized")].
Proof.
  split; [|reflexivity].
  apply (nothing_is_sent_before_a_transport_is_registered
           [Invoke (Call (VStr "printer.info") []); Send_batch abc_batch;
            Register_method (VStr "echo") echo;
            Receive (Encoding (VObj [("jsonrpc", VStr "2.0"); ("method", VStr "echo");
                                     ("id", VNum 1)]));
            Receive (response_to "0" (VNum 5)); Notify (VStr "server.restart") []]
           eq_refl).
Defined.
(** ** Batches in general *)

Lemma build_request_fields method_name uid kwargs args :
  exists fields,
    _build_request method_name uid kwargs args = VObj fields /\
    assoc "jsonrpc" fields = Some (VStr "2.0") /\
    assoc "method" fields = Some method_name /\
    assoc "id" fields = if is_nullish uid then None else Some uid.
Proof.
  unfold _build_request.
  destruct (is_nullish uid), (is_nullish kwargs), args; simpl; eauto 10.
Qed.

(** One round of [requests.forEach] on a well-formed entry. *)
Lemma batch_forEach_cons request rest idx batch_request promises w :
  well_formed_entry request = true ->
  exists name fields,
    get request "method" = Normal name /\
    assoc "jsonrpc" fields = Some (VStr "2.0") /\
    assoc "method" fields = Some name /\
    assoc "id" fields =
      (if is_request request then Some (VStr (numeral (id_counter (this w)))) else None) /\
    batch_forEach (request :: rest) idx batch_request promises w =
    (if is_request request then
       batch_forEach rest (S idx) (batch_request ++ [VObj fields])
         (promises ++ [length (heap w)])
         (set_this
            (set_pending_callbacks
               (<[numeral (id_counter (this w)) :=
                    batch_finalize (length (heap w)) name idx]>
                  (pending_callbacks (this w)))
               (set_id_counter (id_counter (this w) + 1) (this w)))
            (set_heap (heap w ++ [Pending]) w))
     else
       batch_forEach rest (S idx) (batch_request ++ [VObj fields]) promises w).
Proof.
  intros Hwf. unfold well_formed_entry in Hwf. unfold is_request.
  cbn [batch_forEach]. unfold new_Promise, allocate, _create_uid. step_monad.
  assert (Hrequest : forall name kwargs args,
    exists fields,
      assoc "jsonrpc" fields = Some (VStr "2.0") /\
      assoc "method" fields = Some name /\
      assoc "id" fields = Some (VStr (numeral (id_counter (this w)))) /\
      _build_request name (VStr (numeral (id_counter (this w)))) kwargs args
      = VObj fields).
  { intros name kwargs args.
    destruct (build_request_fields name (VStr (numeral (id_counter (this w)))) kwargs args)
      as (fields & Hb & Hj & Hm & Hi). now exists fields. }
  assert (Hnotification : forall name kwargs args,
    exists fields,
      assoc "jsonrpc" fields = Some (VStr "2.0") /\
      assoc "method" fields = Some name /\
      assoc "id" fields = None /\
      _build_request name VNull kwargs args = VObj fields).
  { intros name kwargs args.
    destruct (build_request_fields name VNull kwargs args)
      as (fields & Hb & Hj & Hm & Hi). now exists fields. }
  destruct request as [| | b | z | s | items | fs | ename emessage];
    try discriminate Hwf; simpl in *.
  - destruct (Hnotification VUndef VNull []) as (fields & Hj & Hm & Hi & Hb).
    exists VUndef, fields. rewrite <- Hb. now repeat split.
  - destruct (present "params" fs); simpl in *.
    + destruct (instanceof_Object (field "params" fs)) eqn:Hobj; simpl in *.
      * destruct (loose_eq (field "type" fs) Lit_request); simpl.
        -- destruct (Hrequest (field "method" fs) (field "params" fs) [])
             as (fields & Hj & Hm & Hi & Hb).
           exists (field "method" fs), fields. rewrite <- Hb. now repeat split.
        -- destruct (Hnotification (field "method" fs) (field "params" fs) [])
             as (fields & Hj & Hm & Hi & Hb).
           exists (field "method" fs), fields. rewrite <- Hb. now repeat split.
      * destruct (spread (field "params" fs)) as [args|] eqn:Hsp; try discriminate Hwf.
        destruct (loose_eq (field "type" fs) Lit_request); simpl; rewrite ?Hsp; simpl.
        -- destruct (Hrequest (field "method" fs) VNull args)
             as (fields & Hj & Hm & Hi & Hb).
           exists (field "method" fs), fields. rewrite <- Hb. now repeat split.
        -- destruct (Hnotification (field "method" fs) VNull args)
             as (fields & Hj & Hm & Hi & Hb).
           exists (field "method" fs), fields. rewrite <- Hb. now repeat split.
    + destruct (loose_eq (field "type" fs) Lit_request); simpl.
      * destruct (Hrequest (field "method" fs) VNull [])
          as (fields & Hj & Hm & Hi & Hb).
        exists (field "method" fs), fields. rewrite <- Hb. now repeat split.
      * destruct (Hnotification (field "method" fs) VNull [])
          as (fields & Hj & Hm & Hi & Hb).
        exists (field "method" fs), fields. rewrite <- Hb. now repeat split.
  - destruct (Hnotification VUndef VNull []) as (fields & Hj & Hm & Hi & Hb).
    exists VUndef, fields. rewrite <- Hb. now repeat split.
Qed.

(** [requests.forEach] over well-formed entries. *)
Lemma batch_forEach_well_formed requests : forall idx batch_request promises w,
  forallb well_formed_entry requests = true ->
  exists batch w',
    batch_forEach requests idx batch_request promises w =
      (Normal (batch_request ++ batch,
               promises ++ seq (length (heap w)) (request_count requests)), w') /\
    issued w w' /\
    length batch = length requests /\
    id_counter (this w') = (id_counter (this w) + N.of_nat (request_count requests))%N /\
    heap w' = heap w ++ replicate (request_count requests) Pending /\
    combinators w' = combinators w /\
    sent w' = sent w /\
    forall i request, requests !! i = Some request ->
      exists name fields,
        get request "method" = Normal name /\
        batch !! i = Some (VObj fields) /\
        assoc "jsonrpc" fields = Some (VStr "2.0") /\
        assoc "method" fields = Some name /\
        if is_request request then
          assoc "id" fields =
            Some (VStr (numeral (id_counter (this w)
                                 + N.of_nat (request_count (take i requests))))) /\
          pending_callbacks (this w')
            !! numeral (id_counter (this w) + N.of_nat (request_count (take i requests)))
          = Some (batch_finalize (length (heap w) + request_count (take i requests))
                    name (idx + i))
        else assoc "id" fields = None.
Proof.
  induction requests as [|request rest IH]; intros idx batch_request promises w Hall.
  { exists [], w. rewrite !app_nil_r. simpl. rewrite N.add_0_r.
    repeat split; trivial; try apply issued_refl. intros i request Hi. discriminate Hi. }
  simpl in Hall. apply andb_true_iff in Hall as [Hwf Hrest].
  destruct (batch_forEach_cons request rest idx batch_request promises w Hwf)
    as (name & fields & Hname & Hj & Hm & Hi & Hstep).
  rewrite Hstep. clear Hstep. cbn [request_count].
  destruct (is_request request) eqn:Hreq.
  - match goal with
    | |- context [batch_forEach rest _ _ _ ?w1] => set (registered := w1)
    end.
    destruct (IH (S idx) (batch_request ++ [VObj fields]) (promises ++ [length (heap w)])
                registered Hrest)
      as (batch & w' & Hrun & Hiss & Hlen & Hc & Hh & Hk & Hs & Hent).
    assert (Hfirst : issued w registered) by apply (issued_registration w _ [Pending]).
    assert (Hlen1 : length (heap registered) = S (length (heap w))).
    { unfold registered, set_this, set_heap. simpl. rewrite length_app. simpl. lia. }
    exists (VObj fields :: batch), w'. rewrite Hrun, Hlen1.
    split; [now rewrite <- !app_assoc|].
    split; [exact (issued_trans _ _ _ Hfirst Hiss)|].
    split; [simpl; now rewrite Hlen|].
    split; [rewrite Hc; unfold registered, set_this; simpl; lia|].
    split; [rewrite Hh; unfold registered, set_this, set_heap; simpl;
            now rewrite <- app_assoc|].
    split; [exact Hk|]. split; [exact Hs|].
    intros [|i] entry Hentry.
    + injection Hentry as <-. exists name, fields. rewrite Hreq. cbn [take request_count].
      rewrite N.add_0_r, !Nat.add_0_r. repeat split; trivial.
      destruct Hiss as (_ & _ & _ & _ & _ & _ & Hkeep & _).
      rewrite Hkeep by (unfold registered, set_this; simpl; lia).
      unfold registered, set_this. simpl. apply lookup_insert_eq.
    + destruct (Hent i entry Hentry) as (name' & fields' & Hn' & Hb' & Hj' & Hm' & Hid').
      exists name', fields'. repeat split; trivial.
      cbn [take request_count]. rewrite Hreq.
      destruct (is_request entry); [|exact Hid'].
      replace (id_counter (this w) + N.of_nat (S (request_count (take i rest))))%N
        with (id_counter (this registered) + N.of_nat (request_count (take i rest)))%N
        by (unfold registered, set_this; simpl; lia).
      replace (length (heap w) + S (request_count (take i rest)))
        with (length (heap registered) + request_count (take i rest)) by lia.
      replace (idx + S i) with (S idx + i) by lia. exact Hid'.
  - destruct (IH (S idx) (batch_request ++ [VObj fields]) promises w Hrest)
      as (batch & w' & Hrun & Hiss & Hlen & Hc & Hh & Hk & Hs & Hent).
    exists (VObj fields :: batch), w'. rewrite Hrun.
    split; [now rewrite <- !app_assoc|].
    split; [exact Hiss|].
    split; [simpl; now rewrite Hlen|].
    split; [exact Hc|]. split; [exact Hh|]. split; [exact Hk|]. split; [exact Hs|].
    intros [|i] entry Hentry.
    + injection Hentry as <-. exists name, fields. rewrite Hreq. now repeat split.
    + destruct (Hent i entry Hentry) as (name' & fields' & Hn' & Hb' & Hj' & Hm' & Hid').
      exists name', fields'. repeat split; trivial.
      cbn [take request_count]. rewrite Hreq.
      now replace (idx + S i) with (S idx + i) by lia.
Qed.

(** The loop sends nothing and creates no aggregate, also when it throws. *)
Lemma batch_forEach_quiet requests : forall idx batch_request promises w,
  sent (snd (batch_forEach requests idx batch_request promises w)) = sent w /\
  combinators (snd (batch_forEach requests idx batch_request promises w)) = combinators w.
Proof.
  induction requests as [|request rest IH]; intros idx batch_request promises w;
    [now split|].
  cbn [batch_forEach]. unfold new_Promise, allocate, _create_uid. step_monad.
  destruct (get request "method") as [name|]; simpl; [|now split].
  destruct (has "params" request) as [[|]|]; simpl; [| |now split].
  - destruct (get request "params") as [params|]; simpl; [|now split].
    destruct (instanceof_Object params); simpl;
      (destruct (get request "type") as [type|]; simpl; [|now split]);
      destruct (loose_eq type Lit_request); simpl;
      try (destruct (spread params) as [args|]; simpl; [|now split]);
      match goal with
      | |- context [batch_forEach rest ?i ?b ?p ?w1] =>
          destruct (IH i b p w1) as [-> ->]; now split
      end.
  - destruct (get request "type") as [type|]; simpl; [|now split].
    destruct (loose_eq type Lit_request); simpl;
      match goal with
      | |- context [batch_forEach rest ?i ?b ?p ?w1] =>
          destruct (IH i b p w1) as [-> ->]; now split
      end.
Qed.

Lemma batch_forEach_ill_formed requests : forall idx batch_request promises w,
  forallb well_formed_entry requests = false ->
  fst (batch_forEach requests idx batch_request promises w) = Abrupt TypeError.
Proof.
  induction requests as [|request rest IH]; intros idx batch_request promises w Hall;
    [discriminate Hall|].
  simpl in Hall. destruct (well_formed_entry request) eqn:Hwf.
  - destruct (batch_forEach_cons request rest idx batch_request promises w Hwf)
      as (name & fields & _ & _ & _ & _ & ->).
    destruct (is_request request); now apply IH.
  - clear Hall IH. unfold well_formed_entry in Hwf.
    cbn [batch_forEach]. unfold new_Promise, allocate, _create_uid. step_monad.
    destruct request as [| | b | z | s | items | fs | ename emessage];
      try reflexivity; try discriminate Hwf; simpl in *.
    destruct (present "params" fs); simpl in *; [|discriminate Hwf].
    destruct (instanceof_Object (field "params" fs)); simpl in *; [discriminate Hwf|].
    assert (Hthrown : spread (field "params" fs) = Abrupt TypeError).
    { destruct (field "params" fs); try discriminate Hwf; reflexivity. }
    destruct (loose_eq (field "type" fs) Lit_request); simpl; now rewrite Hthrown.
Qed.

Lemma batch_forEach_notifications requests : forall idx batch_request promises w,
  forallb well_formed_entry requests = true ->
  request_count requests = 0 ->
  snd (batch_forEach requests idx batch_request promises w) = w.
Proof.
  induction requests as [|request rest IH]; intros idx batch_request promises w Hall Hk;
    [reflexivity|].
  simpl in Hall. apply andb_true_iff in Hall as [Hwf Hrest].
  destruct (batch_forEach_cons request rest idx batch_request promises w Hwf)
    as (name & fields & _ & _ & _ & _ & ->).
  cbn [request_count] in Hk. destruct (is_request request); [discriminate Hk|].
  now apply IH.
Qed.

(** The promises of a batch when [Promise.all] is called: all pending. *)
Lemma lookup_created (h : list promise_state) k i :
  i < k -> (h ++ replicate k Pending) !! (length h + i) = Some Pending.
Proof.
  intros Hi. rewrite lookup_app_r by lia.
  replace (length h + i - length h) with i by lia.
  now apply lookup_replicate_2.
Qed.

Lemma first_rejected_created (h : list promise_state) k : forall b a,
  a + b <= k ->
  first_rejected (h ++ replicate k Pending) (seq (length h + a) b) = None.
Proof.
  induction b as [|b IH]; intros a Hab; [reflexivity|].
  cbn [seq first_rejected]. rewrite lookup_created by lia.
  replace (S (length h + a)) with (length h + S a) by lia. apply IH. lia.
Qed.

Lemma fulfilled_values_created (h : list promise_state) k :
  fulfilled_values (h ++ replicate k Pending) (seq (length h) k) =
  match k with
  | O => Some []
  | S _ => None
  end.
Proof.
  destruct k as [|k]; [reflexivity|].
  cbn [seq fulfilled_values].
  replace (length h) with (length h + 0) at 1 by lia.
  now rewrite lookup_created by lia.
Qed.

(** [send_batch_request] on well-formed entries, with a transport. *)
Lemma send_batch_well_formed requests w t :
  transport (this w) = Some t ->
  forallb well_formed_entry requests = true ->
  exists batch w',
    send_batch_request requests w =
      (Normal (length (heap w) + request_count requests), w') /\
    length batch = length requests /\
    sent w' = sent w ++ [(t, JSON_stringify (VArr batch))] /\
    id_counter (this w') = (id_counter (this w) + N.of_nat (request_count requests))%N /\
    heap w' = heap w ++ replicate (request_count requests) Pending
                     ++ [aggregate_of (request_count requests)] /\
    combinators w' =
      combinators w ++ [mk_all (length (heap w) + request_count requests)
                          (seq (length (heap w)) (request_count requests))] /\
    forall i request, requests !! i = Some request ->
      exists name fields,
        get request "method" = Normal name /\
        batch !! i = Some (VObj fields) /\
        assoc "jsonrpc" fields = Some (VStr "2.0") /\
        assoc "method" fields = Some name /\
        if is_request request then
          assoc "id" fields =
            Some (VStr (numeral (id_counter (this w)
                                 + N.of_nat (request_count (take i requests))))) /\
          pending_callbacks (this w')
            !! numeral (id_counter (this w) + N.of_nat (request_count (take i requests)))
          = Some (batch_finalize (length (heap w) + request_count (take i requests))
                    name i)
        else assoc "id" fields = None.
Proof.
  intros Ht Hall.
  destruct (batch_forEach_well_formed requests 0 [] [] w Hall)
    as (batch & w1 & Hrun & Hiss & Hlen & Hc & Hh & Hk & Hs & Hent).
  unfold send_batch_request, Promise_all, allocate. step_monad.
  rewrite Ht. simpl. rewrite Hrun. simpl.
  pose proof (first_rejected_created (heap w) (request_count requests)
                (request_count requests) 0) as Hnone.
  rewrite Nat.add_0_r in Hnone. rewrite Hh, Hnone by lia.
  rewrite fulfilled_values_created, length_app, length_replicate.
  eexists batch, _. split; [reflexivity|]. simpl.
  split; [exact Hlen|].
  split; [now rewrite Hs|].
  split; [exact Hc|].
  split; [rewrite <- app_assoc; now destruct (request_count requests)|].
  split; [now rewrite Hk|].
  exact Hent.
Qed.

(** With a transport bound, a batch whose entries are all well formed is
    sent as one frame, an array with one element per entry. One
    identifier is drawn and one pending promise created for each entry of
    type "request" and none for the others, and the promise returned is a
    further one that waits on exactly those promises, in the order of the
    entries. *)
Theorem batch_is_sent_as_one_frame (requests : list value) (w : world) (t : nat) :
  transport (this w) = Some t ->
  forallb well_formed_entry requests = true ->
  let k := request_count requests in
  let r := send_batch_request requests w in
  exists batch,
    fst r = Normal (length (heap w) + k) /\
    sent (snd r) = sent w ++ [(t, JSON_stringify (VArr batch))] /\
    length batch = length requests /\
    id_counter (this (snd r)) = (id_counter (this w) + N.of_nat k)%N /\
    heap (snd r) = heap w ++ replicate k Pending ++ [aggregate_of k] /\
    combinators (snd r) =
      combinators w ++ [mk_all (length (heap w) + k) (seq (length (heap w)) k)].
Proof.
  intros Ht Hall k r.
  destruct (send_batch_well_formed requests w t Ht Hall)
    as (batch & w' & Hrun & Hlen & Hs & Hc & Hh & Hk & _).
  subst r. rewrite Hrun. exists batch. simpl. now repeat split.
Qed.

Lemma batch_is_sent_as_one_frame_witness :
  exists batch,
    fst (send_batch_request abc_batch one_call) = Normal 3 /\
    sent (snd (send_batch_request abc_batch one_call)) =
      sent one_call ++ [(7, JSON_stringify (VArr batch))] /\
    length batch = 3 /\
    id_counter (this (snd (send_batch_request abc_batch one_call))) = 3%N /\
    heap (snd (send_batch_request abc_batch one_call)) =
      [Pending; Pending; Pending; Pending] /\
    combinators (snd (send_batch_request abc_batch one_call)) = [mk_all 3 [1; 2]].
Proof.
  exact (batch_is_sent_as_one_frame abc_batch one_call 7 eq_refl eq_refl).
Defined.

(** In the frame of such a batch, the element at the position of an entry
    carries the entry's method; for an entry of type "request" it carries
    as id the decimal numeral of the counter plus the number of request
    entries before it, and the completion stored under that id remembers
    the entry's method and its position in the batch; any other entry has
    no id. *)
Theorem batch_entries_are_numbered_in_order
    (requests : list value) (w : world) (t i : nat) (request : value) :
  transport (this w) = Some t ->
  forallb well_formed_entry requests = true ->
  requests !! i = Some request ->
  let j := request_count (take i requests) in
  let uid := numeral (id_counter (this w) + N.of_nat j) in
  let r := send_batch_request requests w in
  exists batch name fields,
    sent (snd r) = sent w ++ [(t, JSON_stringify (VArr batch))] /\
    get request "method" = Normal name /\
    batch !! i = Some (VObj fields) /\
    assoc "jsonrpc" fields = Some (VStr "2.0") /\
    assoc "method" fields = Some name /\
    if is_request request then
      assoc "id" fields = Some (VStr uid) /\
      pending_callbacks (this (snd r)) !! uid =
        Some (batch_finalize (length (heap w) + j) name i)
    else assoc "id" fields = None.
Proof.
  intros Ht Hall Hi j uid r.
  destruct (send_batch_well_formed requests w t Ht Hall)
    as (batch & w' & Hrun & _ & Hs & _ & _ & _ & Hent).
  destruct (Hent i request Hi) as (name & fields & Hn & Hb & Hj & Hm & Hid).
  subst r. rewrite Hrun. exists batch, name, fields. simpl. now repeat split.
Qed.

Lemma batch_entries_are_numbered_in_order_witness :
  exists batch name fields,
    sent (snd (send_batch_request abc_batch one_call)) =
      sent one_call ++ [(7, JSON_stringify (VArr batch))] /\
    get (batch_item "c" "request") "method" = Normal name /\
    batch !! 2%nat = Some (VObj fields) /\
    assoc "jsonrpc" fields = Some (VStr "2.0") /\
    assoc "method" fields = Some name /\
    assoc "id" fields = Some (VStr "2") /\
    pending_callbacks (this (snd (send_batch_request abc_batch one_call))) !! "2" =
      Some (batch_finalize 2 name 2).
Proof.
  exact (batch_entries_are_numbered_in_order abc_batch one_call 7 2
           (batch_item "c" "request") eq_refl eq_refl eq_refl).
Defined.

(** A well-formed batch without any entry of type "request" (the empty
    batch among them) is still sent as one frame, draws no identifier,
    leaves the engine as it was, and returns a promise that is already
    fulfilled with the empty array. *)
Theorem batch_without_requests_is_fulfilled_at_once
    (requests : list value) (w : world) (t : nat) :
  transport (this w) = Some t ->
  forallb well_formed_entry requests = true ->
  request_count requests = 0 ->
  let r := send_batch_request requests w in
  exists batch,
    fst r = Normal (length (heap w)) /\
    heap (snd r) = heap w ++ [Fulfilled (VArr [])] /\
    this (snd r) = this w /\
    sent (snd r) = sent w ++ [(t, JSON_stringify (VArr batch))] /\
    length batch = length requests.
Proof.
  intros Ht Hall Hk r.
  destruct (batch_forEach_well_formed requests 0 [] [] w Hall)
    as (batch & w1 & Hrun & _ & Hlen & _).
  pose proof (batch_forEach_notifications requests 0 [] [] w Hall Hk) as Hsame.
  rewrite Hrun in Hsame. simpl in Hsame. subst w1.
  subst r. unfold send_batch_request, Promise_all, allocate. step_monad.
  rewrite Ht. simpl. rewrite Hrun, Hk. simpl.
  exists batch. now repeat split.
Qed.

Lemma batch_without_requests_is_fulfilled_at_once_witness :
  (exists batch,
     fst (send_batch_request [] one_call) = Normal 1 /\
     heap (snd (send_batch_request [] one_call)) = [Pending; Fulfilled (VArr [])] /\
     this (snd (send_batch_request [] one_call)) = this one_call /\
     sent (snd (send_batch_request [] one_call)) =
       sent one_call ++ [(7, JSON_stringify (VArr batch))] /\
     length batch = 0) /\
  (exists batch,
     fst (send_batch_request notification_batch one_call) = Normal 1 /\
     heap (snd (send_batch_request notification_batch one_call)) =
       [Pending; Fulfilled (VArr [])] /\
     this (snd (send_batch_request notification_batch one_call)) = this one_call /\
     sent (snd (send_batch_request notification_batch one_call)) =
       sent one_call ++ [(7, JSON_stringify (VArr batch))] /\
     length batch = 2).
Proof.
  split.
  - exact (batch_without_requests_is_fulfilled_at_once [] one_call 7
             eq_refl eq_refl eq_refl).
  - exact (batch_without_requests_is_fulfilled_at_once notification_batch one_call 7
             eq_refl eq_refl eq_refl).
Defined.

(** A batch with an entry that is not well formed (not an object, or with
    params that are neither an object nor spreadable) makes
    [send_batch_request] throw a TypeError: no frame is sent for any of
    its entries and no aggregate promise is created. *)
Theorem ill_formed_batch_sends_nothing (requests : list value) (w : world) (t : nat) :
  transport (this w) = Some t ->
  forallb well_formed_entry requests = false ->
  let r := send_batch_request requests w in
  fst r = Abrupt TypeError /\
  sent (snd r) = sent w /\
  combinators (snd r) = combinators w.
Proof.
  intros Ht Hall r. subst r.
  unfold send_batch_request. step_monad. rewrite Ht. simpl.
  pose proof (batch_forEach_ill_formed requests 0 [] [] w Hall) as Hthrown.
  pose proof (batch_forEach_quiet requests 0 [] [] w) as [Hs Hk].
  destruct (batch_forEach requests 0 [] [] w) as [[[batch_request promises]|thrown] w1];
    simpl in *; [discriminate Hthrown|].
  injection Hthrown as ->. now repeat split.
Qed.

Lemma ill_formed_batch_sends_nothing_witness :
  fst (send_batch_request broken_batch one_call) = Abrupt TypeError /\
  sent (snd (send_batch_request broken_batch one_call)) = sent one_call /\
  combinators (snd (send_batch_request broken_batch one_call)) = combinators one_call.
Proof.
  exact (ill_formed_batch_sends_nothing broken_batch one_call 7 eq_refl eq_refl).
Defined.
(** ** Responses and the calls they complete *)

Lemma completing_frame_has_shape fields uid :
  completes uid (VObj fields) = true ->
  present "result" fields || present "error" fields = true.
Proof.
  unfold completes. intros Hc.
  apply andb_true_iff in Hc as [_ Hc]. apply orb_true_iff in Hc as [Hc|Hc].
  - apply andb_true_iff in Hc as [Hr _]. apply negb_true_iff in Hr.
    now rewrite (nonnull_present _ _ Hr).
  - apply negb_true_iff in Hc. rewrite (nonnull_present "error" _ Hc).
    apply orb_true_r.
Qed.

(** What the first delivery of a completing frame leaves of the engine. *)
Lemma completing_frame_deletes fields uid f w :
  loose_eq (field "jsonrpc" fields) Lit_2_0 = true ->
  completes uid (VObj fields) = true ->
  pending_callbacks (this w) !! uid = Some f ->
  exists h,
    process_received (Encoding (VObj fields)) w =
    (Normal tt,
     set_this (set_pending_callbacks (delete uid (pending_callbacks (this w))) (this w))
       (set_heap h w)).
Proof.
  intros Htag Hc Hf.
  rewrite (dispatch_response w fields Htag (completing_frame_has_shape _ _ Hc)).
  unfold completes in Hc. apply andb_true_iff in Hc as [Hkey Hc].
  apply String.eqb_eq in Hkey. subst uid.
  destruct (negb (is_nullish (field "result" fields))
            && negb (is_nullish (field "id" fields))) eqn:Hres.
  - apply andb_true_iff in Hres as [Hr Hi]. apply negb_true_iff in Hr, Hi.
    rewrite (handle_response_result w fields f) by trivial.
    apply completion_effects.
  - simpl in Hc. apply negb_true_iff in Hc.
    rewrite (handle_response_error w fields f) by trivial.
    apply completion_effects.
Qed.

(** A response completes a call at most once: when the frame that
    completed a pending call is delivered again, the identifier is no
    longer pending, and the second delivery only writes two lines to the
    console; promises, pending calls and sent frames stay as the first
    delivery left them. *)
Theorem response_completes_at_most_once
    (w : world) (fields : list (string * value)) (uid : string) (f : callback) :
  loose_eq (field "jsonrpc" fields) Lit_2_0 = true ->
  completes uid (VObj fields) = true ->
  pending_callbacks (this w) !! uid = Some f ->
  let w1 := snd (process_received (Encoding (VObj fields)) w) in
  pending_callbacks (this w1) !! uid = None /\
  exists message detail,
    process_received (Encoding (VObj fields)) w1 =
    (Normal tt, add_console [VStr message; detail] w1).
Proof.
  intros Htag Hc Hf w1.
  destruct (completing_frame_deletes fields uid f w Htag Hc Hf) as [h Hfirst].
  assert (Hgone : pending_callbacks (this w1) !! uid = None).
  { subst w1. rewrite Hfirst. unfold set_this. simpl. apply lookup_delete_eq. }
  split; [exact Hgone|].
  rewrite (dispatch_response w1 fields Htag (completing_frame_has_shape _ _ Hc)).
  apply handle_response_orphan.
  unfold completes in Hc. apply andb_true_iff in Hc as [Hkey _].
  apply String.eqb_eq in Hkey. now rewrite Hkey.
Qed.

Lemma response_completes_at_most_once_witness :
  pending_callbacks
    (this (snd (process_received (response_to "0" (VNum 1)) one_call))) !! "0" = None /\
  exists message detail,
    process_received (response_to "0" (VNum 1))
      (snd (process_received (response_to "0" (VNum 1)) one_call)) =
    (Normal tt,
     add_console [VStr message; detail]
       (snd (process_received (response_to "0" (VNum 1)) one_call))).
Proof.
  exact (response_completes_at_most_once one_call
           [("jsonrpc", VStr "2.0"); ("result", VNum 1); ("id", VStr "0")]
           "0" (call_finalize 0) eq_refl eq_refl eq_refl).
Defined.
(** ** A call from one engine to another and back *)

(** The frame of a call as the peer parses it. *)
Lemma request_wire name uid args :
  exists fields,
    JSON_stringify (_build_request (VStr name) (VStr uid) VNull args)
    = Encoding (VObj fields) /\
    loose_eq (field "jsonrpc" fields) Lit_2_0 = true /\
    present "result" fields = false /\
    present "error" fields = false /\
    present "method" fields = true /\
    field "method" fields = VStr name /\
    present "id" fields = true /\
    field "id" fields = VStr uid /\
    forall method, applied method fields = Some (method (on_the_wire args)).
Proof.
  destruct args as [|a args]; eexists; (split; [reflexivity|]); now repeat split.
Qed.


(** [call_method] with a transport bound. *)
Lemma call_method_bound method_name args w t :
  transport (this w) = Some t ->
  exists w1,
    call_method method_name args w = (Normal (length (heap w)), w1) /\
    sent w1 = sent w ++
      [(t, JSON_stringify
             (_build_request method_name (VStr (numeral (id_counter (this w)))) VNull args))] /\
    heap w1 = heap w ++ [Pending] /\
    combinators w1 = combinators w /\
    pending_callbacks (this w1) !! numeral (id_counter (this w))
    = Some (call_finalize (length (heap w))).
Proof.
  intros Ht. unfold call_method, _create_uid, new_Promise, allocate. step_monad.
  rewrite Ht. simpl. eexists. split; [reflexivity|].
  unfold set_this, set_heap, add_sent. simpl.
  repeat split. apply lookup_insert_eq.
Qed.

(** A response with a result, and one with an error only, for a call
    whose promise is pending. *)
Lemma response_fulfils w fields p :
  loose_eq (field "jsonrpc" fields) Lit_2_0 = true ->
  is_nullish (field "result" fields) = false ->
  is_nullish (field "id" fields) = false ->
  pending_callbacks (this w) !! ToPropertyKey (field "id" fields) = Some (call_finalize p) ->
  heap w !! p = Some Pending ->
  heap (snd (process_received (Encoding (VObj fields)) w)) !! p
  = Some (Fulfilled (field "result" fields)).
Proof.
  intros Htag Hr Hi Hf Hp.
  rewrite (dispatch_response w fields Htag)
    by (now rewrite (nonnull_present _ _ Hr)).
  rewrite (handle_response_result w fields _ Hr Hi Hf).
  unfold result_path. rewrite completion_heap.
  change (invoke (call_finalize p) (field "result" fields) VUndef)
    with (settle p (Fulfilled (field "result" fields))).
  now apply settle_sets.
Qed.

Lemma response_rejects w fields p :
  loose_eq (field "jsonrpc" fields) Lit_2_0 = true ->
  is_nullish (field "result" fields) = true ->
  is_nullish (field "error" fields) = false ->
  pending_callbacks (this w) !! ToPropertyKey (field "id" fields) = Some (call_finalize p) ->
  heap w !! p = Some Pending ->
  heap (snd (process_received (Encoding (VObj fields)) w)) !! p
  = Some (Rejected (field "error" fields)).
Proof.
  intros Htag Hr He Hf Hp.
  rewrite (dispatch_response w fields Htag)
    by (rewrite (nonnull_present "error" _ He); apply orb_true_r).
  rewrite (handle_response_error w fields (call_finalize p)); trivial;
    [|now rewrite Hr].
  unfold error_path. rewrite completion_heap.
  unfold invoke. rewrite He. cbn [negb]. unfold reject.
  now apply settle_sets.
Qed.


(** The request of a call as the serving engine answers it. *)
Lemma request_is_served server fields name method st :
  transport (this server) = Some st ->
  methods (this server) !! name = Some method ->
  loose_eq (field "jsonrpc" fields) Lit_2_0 = true ->
  present "result" fields = false ->
  present "error" fields = false ->
  present "method" fields = true ->
  field "method" fields = VStr name ->
  present "id" fields = true ->
  process_received (Encoding (VObj fields)) server =
  match applied method fields with
  | Some (Normal ret) =>
      (Normal tt,
       add_sent st (JSON_stringify (result_frame ret (field "id" fields))) server)
  | Some (Abrupt error) =>
      if instanceof_Object error then
        (Normal tt,
         add_sent st
           (JSON_stringify
              (error_frame (thrown_message error) (VNum (-31000)) (field "id" fields)))
           (add_console
              (request_error_log (thrown_message error) (VNum (-31000)) fields) server))
      else (Abrupt TypeError, server)
  | None =>
      (Normal tt,
       add_sent st
         (JSON_stringify
            (error_frame (VStr "Invalid Parameters") (VNum (-32602)) (field "id" fields)))
         (add_console
            (request_error_log (VStr "Invalid Parameters") (VNum (-32602)) fields) server))
  end.
Proof.
  intros Ht Hm Htag Hres Herr Hmeth Hname Hid.
  rewrite dispatch_request by trivial.
  rewrite (handle_request_registered server fields method)
    by (now rewrite Hname).
  unfold reply, reply_id. rewrite Hid. simpl. rewrite Ht.
  destruct (applied method fields) as [[ret|error]|]; trivial.
Qed.



(** When the serving callable throws an object instead, the call is
    rejected at the calling end: the serving engine sends one error frame
    with code -31000 and the message of the thrown object, and the calling
    engine, given that frame, rejects the promise of the call with the
    error object of the frame. *)
Theorem call_is_rejected_end_to_end
    (client server : world) (name : string) (args : list value) (method : callable)
    (ct st : nat) (error : value) :
  transport (this client) = Some ct ->
  transport (this server) = Some st ->
  methods (this server) !! name = Some method ->
  method (on_the_wire args) = Abrupt error ->
  instanceof_Object error = true ->
  exists p client1 request response,
    call_method (VStr name) args client = (Normal p, client1) /\
    sent client1 = sent client ++ [(ct, request)] /\
    heap client1 !! p = Some Pending /\
    fst (process_received request server) = Normal tt /\
    sent (snd (process_received request server)) = sent server ++ [(st, response)] /\
    heap (snd (process_received response client1)) !! p
    = Some (Rejected (to_JSON (server_error error))).
Proof.
  intros Hct Hst Hm Hthrown Hobj.
  destruct (call_method_bound (VStr name) args client ct Hct)
    as (client1 & Hcall & Hsent & Hheap & _ & Hpending).
  destruct (request_wire name (numeral (id_counter (this client))) args)
    as (fields & Hwire & Htag & Hres & Herr & Hmeth & Hname & Hid & Huid & Happ).
  exists (length (heap client)), client1, (Encoding (VObj fields)),
    (JSON_stringify
       (error_frame (thrown_message error) (VNum (-31000))
          (VStr (numeral (id_counter (this client)))))).
  assert (Hp : heap client1 !! length (heap client) = Some Pending)
    by (rewrite Hheap; apply list_lookup_middle; reflexivity).
  split; [exact Hcall|]. split; [now rewrite Hsent, Hwire|]. split; [exact Hp|].
  rewrite (request_is_served server fields name method st) by trivial.
  rewrite Happ, Hthrown, Hobj, Huid.
  split; [reflexivity|]. split; [reflexivity|].
  apply (response_rejects client1
           [("jsonrpc", VStr "2.0"); ("error", to_JSON (server_error error));
            ("id", VStr (numeral (id_counter (this client))))]);
    trivial.
Qed.

Lemma call_is_rejected_end_to_end_witness :
  exists p client1 request response,
    call_method (VStr "throws_error") [] one_call = (Normal p, client1) /\
    sent client1 = sent one_call ++ [(7, request)] /\
    heap client1 !! p = Some Pending /\
    fst (process_received request serving) = Normal tt /\
    sent (snd (process_received request serving)) = sent serving ++ [(7, response)] /\
    heap (snd (process_received response client1)) !! p
    = Some (Rejected (VObj [("message", VStr "boom"); ("code", VNum (-31000))])).
Proof.
  exact (call_is_rejected_end_to_end one_call serving "throws_error" [] throws_error
           7 7 (Error "boom") eq_refl eq_refl eq_refl eq_refl eq_refl).
Defined.

(** A callable that returns nothing (undefined) or null leaves the remote
    caller waiting: the serving engine still sends a frame for the
    request, but the calling engine, given that frame, only writes to its
    console; the promise of the call stays pending and its identifier
    stays registered. *)
Theorem void_method_leaves_the_caller_pending
    (client server : world) (name : string) (args : list value) (method : callable)
    (ct st : nat) (ret : value) :
  transport (this client) = Some ct ->
  transport (this server) = Some st ->
  methods (this server) !! name = Some method ->
  method (on_the_wire args) = Normal ret ->
  is_nullish ret = true ->
  exists p client1 request response entries,
    call_method (VStr name) args client = (Normal p, client1) /\
    sent client1 = sent client ++ [(ct, request)] /\
    heap client1 !! p = Some Pending /\
    process_received request server = (Normal tt, add_sent st response server) /\
    process_received response client1 = (Normal tt, add_console entries client1).
Proof.
  intros Hct Hst Hm Hret Hnull.
  destruct (call_method_bound (VStr name) args client ct Hct)
    as (client1 & Hcall & Hsent & Hheap & _ & Hpending).
  destruct (request_wire name (numeral (id_counter (this client))) args)
    as (fields & Hwire & Htag & Hres & Herr & Hmeth & Hname & Hid & Huid & Happ).
  assert (Hp : heap client1 !! length (heap client) = Some Pending)
    by (rewrite Hheap; apply list_lookup_middle; reflexivity).
  assert (Hlogged : exists entries,
    process_received
      (JSON_stringify (result_frame ret (VStr (numeral (id_counter (this client))))))
      client1
    = (Normal tt, add_console entries client1)).
  { destruct ret; try discriminate Hnull.
    - eexists. unfold process_received, _validate_and_dispatch. step_monad.
      rewrite add_console_app. reflexivity.
    - eexists. unfold process_received, _validate_and_dispatch, _handle_response.
      step_monad. rewrite add_console_app. reflexivity. }
  destruct Hlogged as [entries Hlogged].
  exists (length (heap client)), client1, (Encoding (VObj fields)),
    (JSON_stringify (result_frame ret (VStr (numeral (id_counter (this client)))))),
    entries.
  split; [exact Hcall|]. split; [now rewrite Hsent, Hwire|]. split; [exact Hp|].
  split; [|exact Hlogged].
  rewrite (request_is_served server fields name method st) by trivial.
  now rewrite Happ, Hret, Huid.
Qed.

Lemma void_method_leaves_the_caller_pending_witness :
  exists p client1 request response entries,
    call_method (VStr "echo") [] one_call = (Normal p, client1) /\
    sent client1 = sent one_call ++ [(7, request)] /\
    heap client1 !! p = Some Pending /\
    process_received request serving = (Normal tt, add_sent 7 response serving) /\
    process_received response client1 = (Normal tt, add_console entries client1).
Proof.
  exact (void_method_leaves_the_caller_pending one_call serving "echo" [] echo 7 7 VUndef
           eq_refl eq_refl eq_refl eq_refl eq_refl).
Defined.


(** ** What goes out on the wire *)

Lemma build_request_head method_name uid kwargs args :
  exists rest,
    _build_request method_name uid kwargs args = VObj (("jsonrpc", VStr "2.0") :: rest).
Proof.
  unfold _build_request.
  destruct (is_nullish uid), (is_nullish kwargs), args; simpl; eauto.
Qed.

Lemma versioned_head rest :
  versioned_text (JSON_stringify (VObj (("jsonrpc", VStr "2.0") :: rest))) = true.
Proof. reflexivity. Qed.

Lemma versioned_request method_name uid kwargs args :
  versioned_text (JSON_stringify (_build_request method_name uid kwargs args)) = true.
Proof.
  destruct (build_request_head method_name uid kwargs args) as [rest ->].
  apply versioned_head.
Qed.

Lemma versioned_batch batch :
  Forall (fun v => exists rest, v = VObj (("jsonrpc", VStr "2.0") :: rest)) batch ->
  versioned_text (JSON_stringify (VArr batch)) = true.
Proof.
  intros Hall. unfold JSON_stringify. cbn [to_JSON versioned_text].
  induction Hall as [|v batch [rest ->] _ IH]; [reflexivity|].
  cbn [map forallb]. now rewrite IH.
Qed.

Lemma emits_refl w : emits w w.
Proof. exists []. split; [now rewrite app_nil_r | constructor]. Qed.

Lemma emits_trans w1 w2 w3 : emits w1 w2 -> emits w2 w3 -> emits w1 w3.
Proof.
  intros (f1 & Hs1 & Hv1) (f2 & Hs2 & Hv2). exists (f1 ++ f2).
  split; [now rewrite Hs2, Hs1, app_assoc | now apply Forall_app].
Qed.

Lemma emits_same w w' : sent w' = sent w -> emits w w'.
Proof. intros Hs. exists []. split; [now rewrite app_nil_r | constructor]. Qed.

Lemma emits_reply data w : versioned_text data = true -> emits w (reply data w).
Proof.
  intros Hv. unfold reply. destruct (transport (this w)) as [t|]; [|apply emits_refl].
  exists [(t, data)]. split; [reflexivity | now repeat constructor].
Qed.

Lemma handle_response_sent fields w :
  sent (snd (_handle_response (VObj fields) w)) = sent w.
Proof.
  assert (Hdone : forall f result error uid,
    sent (snd ((exec invoke f result error; delete_pending uid) w)) = sent w).
  { intros f result error uid.
    destruct (completion_effects f result error uid w) as [h ->]. reflexivity. }
  destruct (pending_callbacks (this w) !! ToPropertyKey (field "id" fields))
    as [f|] eqn:Hf.
  - destruct (negb (is_nullish (field "result" fields))
              && negb (is_nullish (field "id" fields))) eqn:Hres.
    + apply andb_true_iff in Hres as [Hr Hi]. apply negb_true_iff in Hr, Hi.
      rewrite (handle_response_result w fields f) by trivial. apply Hdone.
    + destruct (is_nullish (field "error" fields)) eqn:Herr.
      * now rewrite handle_response_invalid by trivial.
      * rewrite (handle_response_error w fields f) by trivial. apply Hdone.
  - destruct (handle_response_orphan w fields Hf) as (message & detail & ->).
    reflexivity.
Qed.

Lemma handle_request_emits fields w : emits w (snd (_handle_request (VObj fields) w)).
Proof.
  destruct (methods (this w) !! ToPropertyKey (field "method" fields)) as [method|] eqn:Hm.
  - rewrite (handle_request_registered w fields method Hm).
    destruct (applied method fields) as [[ret|error]|]; simpl.
    + destruct (present "id" fields); simpl; [|apply emits_refl].
      apply emits_reply, versioned_head.
    + destruct (instanceof_Object error); simpl; [|apply emits_refl].
      eapply emits_trans; [apply emits_same | apply emits_reply, versioned_head].
      reflexivity.
    + eapply emits_trans; [apply emits_same | apply emits_reply, versioned_head].
      reflexivity.
  - unfold _handle_request. step_monad. unfold callable in *. rewrite Hm.
    now apply emits_same.
Qed.

Lemma dispatch_emits frame w : emits w (snd (_validate_and_dispatch frame w)).
Proof.
  destruct frame as [| | b | z | s | items | fields | name message];
    try apply emits_refl;
    try (unfold _validate_and_dispatch; step_monad; now apply emits_same).
  unfold _validate_and_dispatch. step_monad.
  destruct (loose_eq (field "jsonrpc" fields) Lit_2_0); simpl;
    [|now apply emits_same].
  destruct (present "result" fields); simpl;
    [apply emits_same, handle_response_sent|].
  destruct (present "error" fields); simpl;
    [apply emits_same, handle_response_sent|].
  destruct (present "method" fields); simpl;
    [apply handle_request_emits | now apply emits_same].
Qed.

Lemma for_of_emits items : forall w, emits w (snd (for_of items w)).
Proof.
  induction items as [|frame rest IH]; intros w; [apply emits_refl|].
  simpl. unfold bind.
  pose proof (dispatch_emits frame w) as Hstep.
  destruct (_validate_and_dispatch frame w) as [[[]|thrown] w1]; simpl in *;
    [eapply emits_trans; [exact Hstep | apply IH] | exact Hstep].
Qed.

Lemma process_received_emits data w : emits w (snd (process_received data w)).
Proof.
  destruct data as [|v]; [apply emits_refl|].
  destruct v as [| | b | z | s | items | fields | name message];
    try apply (dispatch_emits _ w).
  apply for_of_emits.
Qed.

Lemma perform_emits c w : emits w (snd (perform c w)).
Proof.
  rewrite perform_draws_uid. unfold bind. rewrite create_uid_spec.
  unfold send_request, new_Promise, Promise_reject, allocate. step_monad.
  destruct (transport (this w)) as [t|]; simpl; [|now apply emits_same].
  eexists [(t, _)]. split; [reflexivity|]. repeat constructor. simpl.
  destruct c; apply versioned_request.
Qed.

Lemma notify_emits method_name args w : emits w (snd (notify method_name args w)).
Proof.
  unfold notify. step_monad.
  destruct (transport (this w)) as [t|]; simpl; [|apply emits_refl].
  exists [(t, JSON_stringify (_build_request method_name VNull VNull args))].
  split; [reflexivity|]. repeat constructor. apply versioned_request.
Qed.

(** The frames collected by the loop of a batch. *)
Lemma batch_forEach_frames requests : forall idx batch_request promises w batch promises' w',
  batch_forEach requests idx batch_request promises w = (Normal (batch, promises'), w') ->
  Forall (fun v => exists rest, v = VObj (("jsonrpc", VStr "2.0") :: rest)) batch_request ->
  Forall (fun v => exists rest, v = VObj (("jsonrpc", VStr "2.0") :: rest)) batch.
Proof.
  induction requests as [|request rest IH];
    intros idx batch_request promises w batch promises' w' Hrun Hall.
  { injection Hrun as <- _ _. exact Hall. }
  revert Hrun. cbn [batch_forEach]. unfold new_Promise, allocate, _create_uid. step_monad.
  assert (Hnext : forall name uid kwargs args,
    Forall (fun v => exists rest, v = VObj (("jsonrpc", VStr "2.0") :: rest))
      (batch_request ++ [_build_request name uid kwargs args])).
  { intros name uid kwargs args. apply Forall_app. split; [exact Hall|].
    repeat constructor. apply build_request_head. }
  destruct (get request "method") as [name|]; simpl; [|discriminate].
  destruct (has "params" request) as [[|]|]; simpl; [| |discriminate].
  - destruct (get request "params") as [params|]; simpl; [|discriminate].
    destruct (instanceof_Object params); simpl;
      (destruct (get request "type") as [type|]; simpl; [|discriminate]);
      destruct (loose_eq type Lit_request); simpl;
      try (destruct (spread params) as [args|]; simpl; [|discriminate]);
      intros Hrun; apply IH in Hrun; trivial.
  - destruct (get request "type") as [type|]; simpl; [|discriminate].
    destruct (loose_eq type Lit_request); simpl;
      intros Hrun; apply IH in Hrun; trivial.
Qed.

Lemma send_batch_emits requests w : emits w (snd (send_batch_request requests w)).
Proof.
  unfold send_batch_request, Promise_reject, Promise_all, allocate. step_monad.
  destruct (transport (this w)) as [t|]; simpl; [|now apply emits_same].
  pose proof (batch_forEach_quiet requests 0 [] [] w) as [Hs _].
  pose proof (batch_forEach_frames requests 0 [] [] w) as Hframes.
  destruct (batch_forEach requests 0 [] [] w) as [[[batch promises]|thrown] w1];
    simpl in *; [|now apply emits_same].
  exists [(t, JSON_stringify (VArr batch))]. split; [now rewrite Hs|].
  repeat constructor. apply versioned_batch.
  apply (Hframes batch promises w1); [reflexivity | constructor].
Qed.

Lemma step_emits e w : emits w (step e w).
Proof.
  destruct e as [c | method_name args | requests | data | method_name method | t];
    simpl.
  - apply perform_emits.
  - apply notify_emits.
  - apply send_batch_emits.
  - apply process_received_emits.
  - now apply emits_same.
  - now apply emits_same.
Qed.

(** Every text the engine hands to a transport, by whatever operation, is
    a frame that carries the member jsonrpc with the value "2.0", or an
    array of such frames: a peer running the same engine never rejects
    it as "Invalid JSON-RPC data" for its version. *)
Theorem every_sent_frame_is_versioned (es : list event) (w : world) :
  exists frames,
    sent (run es w) = sent w ++ frames /\
    Forall (fun m => versioned_text (snd m) = true) frames.
Proof.
  revert w. induction es as [|e rest IH]; intros w; [apply emits_refl|].
  exact (emits_trans _ _ _ (step_emits e w) (IH (step e w))).
Qed.
(** ** Identifiers as property keys, and arrays of frames *)

(** The id of a response is matched with the identifier of a call as a
    property key: after a call, any tagged frame with a non-null result
    whose id coerces to the identifier drawn by the call (the string
    itself, or the number it prints) fulfils the promise of the call with
    the result. *)
Theorem response_id_is_matched_by_key
    (w : world) (method_name : value) (args : list value) (t : nat)
    (fields : list (string * value)) :
  transport (this w) = Some t ->
  loose_eq (field "jsonrpc" fields) Lit_2_0 = true ->
  is_nullish (field "result" fields) = false ->
  is_nullish (field "id" fields) = false ->
  ToPropertyKey (field "id" fields) = numeral (id_counter (this w)) ->
  exists p w1,
    call_method method_name args w = (Normal p, w1) /\
    heap w1 !! p = Some Pending /\
    heap (snd (process_received (Encoding (VObj fields)) w1)) !! p
    = Some (Fulfilled (field "result" fields)).
Proof.
  intros Ht Htag Hr Hi Hkey.
  destruct (call_method_bound method_name args w t Ht)
    as (w1 & Hcall & _ & Hheap & _ & Hpending).
  assert (Hp : heap w1 !! length (heap w) = Some Pending)
    by (rewrite Hheap; apply list_lookup_middle; reflexivity).
  exists (length (heap w)), w1. split; [exact Hcall|]. split; [exact Hp|].
  apply response_fulfils; trivial. now rewrite Hkey.
Qed.

Lemma response_id_is_matched_by_key_witness :
  exists p w1,
    call_method (VStr "server.info") [] one_call = (Normal p, w1) /\
    heap w1 !! p = Some Pending /\
    heap (snd (process_received
                 (Encoding (VObj [("jsonrpc", VNum 2); ("result", VStr "ok");
                                  ("id", VNum 1)])) w1)) !! p
    = Some (Fulfilled (VStr "ok")).
Proof.
  exact (response_id_is_matched_by_key one_call (VStr "server.info") [] 7
           [("jsonrpc", VNum 2); ("result", VStr "ok"); ("id", VNum 1)]
           eq_refl eq_refl eq_refl eq_refl eq_refl).
Defined.

Lemma for_of_deliver items : forall w,
  forallb (fun frame => negb (instanceof_Array frame)) items = true ->
  fst (for_of items w) = Normal tt ->
  snd (for_of items w) = deliver (map Encoding items) w.
Proof.
  induction items as [|frame rest IH]; intros w Hflat Hdone; [reflexivity|].
  simpl in Hflat. apply andb_true_iff in Hflat as [Hframe Hrest].
  apply negb_true_iff in Hframe.
  assert (Hone : process_received (Encoding frame) w = _validate_and_dispatch frame w).
  { unfold process_received. step_monad. now rewrite Hframe. }
  cbn [map]. unfold deliver. cbn [fold_left]. fold (deliver (map Encoding rest)).
  rewrite Hone. revert Hdone. cbn [for_of]. unfold bind.
  destruct (_validate_and_dispatch frame w) as [[[]|thrown] w1]; simpl;
    [now apply IH | discriminate].
Qed.

(** An array of frames that is processed to its end has the effect of
    its frames delivered one after the other, in the order of the array
    (a frame that is itself an array is not unfolded, so it is excluded
    here). *)
Theorem array_of_frames_is_delivered_in_order (items : list value) (w : world) :
  forallb (fun frame => negb (instanceof_Array frame)) items = true ->
  fst (process_received (Encoding (VArr items)) w) = Normal tt ->
  snd (process_received (Encoding (VArr items)) w) = deliver (map Encoding items) w.
Proof.
  intros Hflat Hdone. now apply for_of_deliver.
Qed.

Lemma array_of_frames_is_delivered_in_order_witness :
  snd (process_received
         (Encoding (VArr [VObj [("jsonrpc", VStr "2.0"); ("result", VNum 5);
                                ("id", VStr "1")];
                          VObj [("jsonrpc", VStr "2.0"); ("error", rpc_error);
                                ("id", VStr "0")]]))
         (batch_sent 7))
  = deliver [response_to "1" (VNum 5); error_to "0" rpc_error] (batch_sent 7).
Proof.
  exact (array_of_frames_is_delivered_in_order
           [VObj [("jsonrpc", VStr "2.0"); ("result", VNum 5); ("id", VStr "1")];
            VObj [("jsonrpc", VStr "2.0"); ("error", rpc_error); ("id", VStr "0")]]
           (batch_sent 7) eq_refl eq_refl).
Defined.

(** ** Calls with keyword arguments *)

(** [call_method_with_kwargs] with a non-empty array for kwargs is the
    positional call with the items of the array, and with null or
    undefined for kwargs it is the call without arguments: the same
    frame, the same identifier, the same promise. *)
Theorem kwargs_array_is_a_positional_call
    (method_name a : value) (args : list value) (w : world) :
  call_method_with_kwargs method_name (VArr (a :: args)) w
  = call_method method_name (a :: args) w /\
  call_method_with_kwargs method_name VNull w = call_method method_name [] w /\
  call_method_with_kwargs method_name VUndef w = call_method method_name [] w.
Proof. repeat split. Qed.



